(** * django-serializers: the field declaration and conversion engine

    A shallow embedding of [serializers/serializer.py]: the collection of
    declared fields across a class hierarchy, the resolution of serializer
    options, the resolution of the field set of an object and the walk of an
    object graph to a tree of primitive values, with its visited stack and its
    nesting budget.

    Python objects live in a heap indexed by object identity, so that cyclic
    graphs can be written down; a serializer instance is a record of its
    attributes, and a method that mutates [self] returns the new [self]. *)

From Stdlib Require Import List String Ascii ZArith Bool Arith Lia.
From Stdlib Require Import Permutation Sorting.Sorted.
Import ListNotations.

Local Open Scope string_scope.
Local Open Scope list_scope.

Set Implicit Arguments.
Set Warnings "-register-all,-notation-for-abbreviation".


(** ** Results of fallible, possibly non-terminating code *)

Inductive error :=
| KeyError (key : string)
| AttributeError (name : string)
| PyException (msg : string).

Inductive result (A : Type) :=
| Ok (a : A)
| Raise (e : error)
| OutOfFuel.

Arguments Ok {A} a.
Arguments Raise {A} e.
Arguments OutOfFuel {A}.

Definition bind {A B} (m : result A) (k : A -> result B) : result B :=
  match m with
  | Ok a => k a
  | Raise e => Raise e
  | OutOfFuel => OutOfFuel
  end.

Notation "x <- m ;; k" := (bind m (fun x => k))
  (at level 61, m at next level, right associativity).
Notation "' ( x , y ) <- m ;; k" := (bind m (fun p => let '(x, y) := p in k))
  (at level 61, x name, y name, m at next level, right associativity).

(** A [for] loop over a list whose body may raise. *)
Fixpoint for_each {A S} (body : S -> A -> result S) (l : list A) (s : S)
  : result S :=
  match l with
  | [] => Ok s
  | x :: r => s' <- body s x ;; for_each body r s'
  end.

(** ** [sorted] and [list.sort]: a stable sort *)

Section Sort.
Variable A : Type.
Variable leb : A -> A -> bool.

Fixpoint insert_sorted (x : A) (l : list A) : list A :=
  match l with
  | [] => [x]
  | y :: r => if leb x y then x :: l else y :: insert_sorted x r
  end.

Definition py_sorted (l : list A) : list A :=
  fold_right insert_sorted [] l.
End Sort.

(** ** [django.utils.datastructures.SortedDict]

    A dictionary that remembers the order in which its keys were first
    inserted. Assigning to a key that is present replaces the value and keeps
    the position of the key. *)

Module SortedDict.
Section Dict.
Variable V : Type.

Definition t := list (string * V).

Definition keys (d : t) : list string := map fst d.

Definition items (d : t) : list (string * V) := d.

Fixpoint get (k : string) (d : t) : option V :=
  match d with
  | [] => None
  | (k', v) :: r => if String.eqb k k' then Some v else get k r
  end.

(** [key in d] *)
Definition contains (k : string) (d : t) : bool :=
  match get k d with Some _ => true | None => false end.

(** [d[key]], raising [KeyError] *)
Definition getitem (k : string) (d : t) : result V :=
  match get k d with Some v => Ok v | None => Raise (KeyError k) end.

(** [d[key] = value] *)
Fixpoint set (k : string) (v : V) (d : t) : t :=
  match d with
  | [] => [(k, v)]
  | (k', v') :: r =>
      if String.eqb k k' then (k', v) :: r else (k', v') :: set k v r
  end.

(** [d.pop(key, None)] *)
Fixpoint pop (k : string) (d : t) : t :=
  match d with
  | [] => []
  | (k', v') :: r =>
      if String.eqb k k' then pop k r else (k', v') :: pop k r
  end.

(** [SortedDict(pairs)]: the order of the keys is the order of their first
    occurrence, the value of a key is the one of its last occurrence. *)
Definition of_pairs (l : list (string * V)) : t :=
  fold_left (fun d kv => set (fst kv) (snd kv) d) l [].
End Dict.
End SortedDict.

Definition sorted_dict (V : Type) : Type := SortedDict.t V.

(** ** [_get_declared_fields]

    The attributes of a class body are either [Field] instances, which carry
    the [creation_counter] they were given when they were created, or
    anything else. A base class either has a [base_fields] attribute or has
    none. *)

Section DeclaredFields.
Variable F : Type.
Variable creation_counter : F -> Z.

Inductive class_attr :=
| IsField (f : F)
| NotField.

Definition own_fields (attrs : list (string * class_attr))
  : list (string * F) :=
  flat_map (fun kv => match snd kv with
                      | IsField f => [(fst kv, f)]
                      | NotField => []
                      end) attrs.

(** The order of [key=lambda x: x[1].creation_counter]. *)
Definition by_counter (x y : string * F) : bool :=
  (creation_counter (snd x) <=? creation_counter (snd y))%Z.

Definition _get_declared_fields
    (bases : list (option (sorted_dict F)))
    (attrs : list (string * class_attr)) : sorted_dict F :=
  let fields := own_fields attrs in
  let fields := py_sorted by_counter fields in
  let fields :=
    fold_left (fun fields base =>
                 match base with
                 | Some base_fields => SortedDict.items base_fields ++ fields
                 | None => fields
                 end) (rev bases) fields in
  SortedDict.of_pairs fields.
End DeclaredFields.

Arguments NotField {F}.

(** ** Options *)

(** The [nested] option: a boolean, or an integer budget. *)
Inductive nested_opt :=
| NBool (b : bool)
| NInt (n : Z).

(** Truth value of a [nested] option, as [if nested:] tests it. *)
Definition truthy (n : nested_opt) : bool :=
  match n with
  | NBool b => b
  | NInt z => negb (z =? 0)%Z
  end.

(** [isinstance(nested, bool)] *)
Definition is_bool (n : nested_opt) : bool :=
  match n with NBool _ => true | NInt _ => false end.

(** [nested - 1]; a boolean is an integer in Python. *)
Definition minus_one (n : nested_opt) : nested_opt :=
  match n with
  | NBool b => NInt ((if b then 1 else 0) - 1)
  | NInt z => NInt (z - 1)
  end.

(** The values the specification gives the [nested] option: [false], [true],
    or a budget, an integer that is not negative. *)
Definition valid_nested (n : nested_opt) : bool :=
  match n with
  | NBool _ => true
  | NInt z => (0 <=? z)%Z
  end.

(** A registry maps a format name to the name of a renderer or parser
    class. *)
Definition registry := list (string * string).

Definition default_renderer_classes : registry :=
  [("xml", "XMLRenderer"); ("json", "JSONRenderer"); ("yaml", "YAMLRenderer");
   ("csv", "CSVRenderer"); ("html", "HTMLRenderer")].

Definition default_parser_classes : registry := [("json", "JSONParser")].

(** A source of options: the attributes of a [Meta] class, or the keyword
    arguments of a constructor call. Each one is present or absent. *)
Record config := mkConfig {
  c_nested : option nested_opt;
  c_fields : option (list string);
  c_exclude : option (list string);
  c_is_root : option bool;
  c_renderer_classes : option registry;
  c_parser_classes : option registry
}.

Definition no_config : config := mkConfig None None None None None None.

(** [getattr(meta, name, default)] *)
Definition getattr_default {A} (name : config -> option A) (meta : config)
    (default : A) : A :=
  match name meta with Some v => v | None => default end.

(** [kwargs.get(name, default)] *)
Definition kwargs_get {A} (name : config -> option A) (kwargs : config)
    (default : A) : A :=
  match name kwargs with Some v => v | None => default end.

Definition _get_option {A} (name : config -> option A) (kwargs meta : config)
    (default : A) : A :=
  kwargs_get name kwargs (getattr_default name meta default).

Record options := mkOptions {
  nested : nested_opt;
  fields : list string;
  exclude : list string;
  is_root : bool;
  renderer_classes : registry;
  parser_classes : registry
}.

(** [SerializerOptions.__init__] *)
Definition SerializerOptions (meta kwargs : config) : options :=
  {| nested := getattr_default c_nested meta (NBool false);
     fields := getattr_default c_fields meta [];
     exclude := getattr_default c_exclude meta [];
     is_root := _get_option c_is_root kwargs meta false;
     renderer_classes :=
       getattr_default c_renderer_classes meta default_renderer_classes;
     parser_classes :=
       getattr_default c_parser_classes meta default_parser_classes |}.

Definition set_nested (n : nested_opt) (o : options) : options :=
  mkOptions n (fields o) (exclude o) (is_root o)
            (renderer_classes o) (parser_classes o).

Definition set_fields (l : list string) (o : options) : options :=
  mkOptions (nested o) l (exclude o) (is_root o)
            (renderer_classes o) (parser_classes o).

Definition set_exclude (l : list string) (o : options) : options :=
  mkOptions (nested o) (fields o) l (is_root o)
            (renderer_classes o) (parser_classes o).

(** ** Python values and the object heap *)

(** Values that [_is_protected_type] accepts. A boolean is an [int]. The
    other protected types (floating point numbers, decimals, dates and
    times) pass through [to_native] in the same way and are left out. *)
Inductive scalar :=
| SNone
| SInt (z : Z)
| SBool (b : bool)
| SStr (s : string).

Definition oid := nat.

(** The values the walk distinguishes: a protected scalar, a [dict], an
    iterable that is not a [dict], and a composite object, given by its
    identity. Callables are not part of the embedding. *)
Inductive value :=
| VScalar (s : scalar)
| VDict (kvs : list (string * value))
| VList (xs : list value)
| VRef (o : oid).

(** What Django's model introspection tells of a model field: its [name],
    the model class its relation points to ([rel.to]) if it is a relation,
    and its [serialize] flag. *)
Record model_field := mkModelField {
  mf_name : string;
  mf_rel : option nat;
  mf_serialize : bool
}.

(** The [_meta] of a model class: [pk], [fields] and [many_to_many]. *)
Record model_options := mkModelOptions {
  mo_pk : model_field;
  mo_fields : list model_field;
  mo_many_to_many : list model_field
}.

(** The world of a traversal: the instance dictionary of every object, in
    the order [__dict__] lists it, the [==] of the objects, the model
    classes, and the model class of every object that is a model instance. *)
Record world := mkWorld {
  heap : list (list (string * value));
  py_eq : oid -> oid -> bool;
  models : list model_options;
  class_of : oid -> option nat
}.

(** A world without model classes. *)
Definition object_world (h : list (list (string * value)))
    (eq : oid -> oid -> bool) : world :=
  mkWorld h eq [] (fun _ => None).

(** The primitive tree. [PDict] is a plain [dict], [PMap] the sorted mapping
    [convert_object] builds, [PSeq] a sequence taken element by element in
    order, and [PFlat v] the flat (non-nested) representation a leaf [Field]
    gives a value that is not a protected scalar. *)
Inductive prim :=
| PScalar (s : scalar)
| PDict (kvs : list (string * prim))
| PMap (kvs : list (string * prim))
| PSeq (xs : list prim)
| PFlat (v : value).

(** ** Fields and serializers *)

Inductive kind :=
| BaseSerializer
| ObjectSerializer
| ModelSerializer.

(** The attributes of a serializer instance apart from its fields. [stack],
    [obj] and [field_name] do not exist until they are first assigned. *)
Record attributes := mkAttributes {
  label : option string;
  s_kind : kind;
  Meta : config;
  opts : options;
  stack : option (list oid);
  obj : option oid;
  field_name : option string
}.

(** A field is a leaf [Field] or a serializer used as a field. A serializer
    has the [base_fields] of its class and its own copy of them, [fields]. *)
Inductive field :=
| Leaf (label : option string)
| Ser (a : attributes) (base_fields fields : list (string * field)).

Record serializer := mkSerializer {
  attrs : attributes;
  base_fields : sorted_dict field;
  s_fields : sorted_dict field
}.

Definition as_field (s : serializer) : field :=
  Ser (attrs s) (base_fields s) (s_fields s).

Definition set_opts (o : options) (a : attributes) : attributes :=
  mkAttributes (label a) (s_kind a) (Meta a) o (stack a) (obj a) (field_name a).

Definition set_stack (st : list oid) (a : attributes) : attributes :=
  mkAttributes (label a) (s_kind a) (Meta a) (opts a) (Some st) (obj a)
               (field_name a).

Definition set_obj (o : oid) (name : string) (a : attributes) : attributes :=
  mkAttributes (label a) (s_kind a) (Meta a) (opts a) (stack a) (Some o)
               (Some name).

Definition with_attrs (a : attributes) (s : serializer) : serializer :=
  mkSerializer a (base_fields s) (s_fields s).

(** [BaseSerializer.__init__]: [fields] is a deep copy of the class's
    [base_fields], the options are resolved from [Meta] and the keyword
    arguments. *)
Definition new_serializer (k : kind) (meta : config)
    (base : sorted_dict field) (lbl : option string) (kwargs : config)
  : serializer :=
  {| attrs := {| label := lbl; s_kind := k; Meta := meta;
                 opts := SerializerOptions meta kwargs;
                 stack := None; obj := None; field_name := None |};
     base_fields := base;
     s_fields := base |}.

(** [self.__class__()] *)
Definition new_same_class (self : serializer) : serializer :=
  new_serializer (s_kind (attrs self)) (Meta (attrs self)) (base_fields self)
                 None no_config.

(** What [BaseSerializer.initialize] assigns: the stack becomes a copy of
    the parent's stack [st], and [nested] is derived from the parent's
    [nested] option [pn]. *)
Definition initialized_attrs (st : list oid) (pn : nested_opt)
    (a : attributes) : attributes :=
  let n := if truthy pn && negb (is_bool pn) then minus_one pn else pn in
  set_opts (set_nested n (opts a)) (set_stack st a).

(** [BaseSerializer.initialize], and [Field.initialize] for a leaf, which
    only records the parent and the model field. *)
Definition initialize (parent : serializer) (f : field) : result field :=
  match f with
  | Leaf l => Ok (Leaf l)
  | Ser a b fs =>
      match stack (attrs parent) with
      | None => Raise (AttributeError "stack")
      | Some st =>
          Ok (Ser (initialized_attrs st (nested (opts (attrs parent))) a) b fs)
      end
  end.

(** The field [initialize] returns when the parent has a stack. *)
Definition initialized (st : list oid) (pn : nested_opt) (f : field) : field :=
  match f with
  | Leaf l => Leaf l
  | Ser a b fs => Ser (initialized_attrs st pn a) b fs
  end.

(** ** The walk from objects to primitives *)

(** The keyword arguments of [serialize] that are options. *)
Record overrides := mkOverrides {
  o_fields : option (list string);
  o_exclude : option (list string);
  o_nested : option nested_opt
}.

Definition no_overrides : overrides := mkOverrides None None None.

(** What [serialize] returns: the primitive tree for the format ['python'],
    and otherwise what the renderer class of the format writes for the
    tree. *)
Inductive serialized :=
| Python (data : prim)
| Rendered (renderer : string) (data : prim).

Definition truthy_label (l : option string) : option string :=
  match l with
  | Some "" => None
  | other => other
  end.

Definition field_label (f : field) : option string :=
  match f with
  | Leaf l => l
  | Ser a _ _ => label a
  end.

(** [convert_field_key] *)
Definition convert_field_key (field_name : string) (f : field) : string :=
  match truthy_label (field_label f) with
  | Some l => l
  | None => field_name
  end.

(** Modelled from the spec: the leaf [Field] of serializers/fields.py, which
    is not among the sources. A protected scalar is its own representation,
    any other value gets a flat, non-nested one. *)
Definition flat (v : value) : prim :=
  match v with
  | VScalar s => PScalar s
  | other => PFlat other
  end.

Section Walk.
Variable w : world.

(** [obj.__dict__] *)
Definition __dict__ (o : oid) : result (list (string * value)) :=
  match nth_error (heap w) o with
  | Some d => Ok d
  | None => Raise (AttributeError "__dict__")
  end.

(** [getattr(obj, name)] *)
Definition getattr (o : oid) (name : string) : result value :=
  d <- __dict__ o ;;
  match SortedDict.get name d with
  | Some v => Ok v
  | None => Raise (AttributeError name)
  end.

(** [obj in self.stack]: identity, or [==]. *)
Definition in_stack (o : oid) (st : list oid) : bool :=
  existsb (fun e => Nat.eqb o e || py_eq w o e) st.

(** The names [ObjectSerializer.default_fields] gives a field to. *)
Definition public_attrs (d : list (string * value)) : list string :=
  py_sorted String.leb
            (filter (fun key => negb (String.prefix "_" key)) (map fst d)).

(** [obj.__class__._meta.concrete_model._meta] *)
Definition model_meta (o : oid) : result model_options :=
  match class_of w o with
  | Some c =>
      match nth_error (models w) c with
      | Some m => Ok m
      | None => Raise (AttributeError "_meta")
      end
  | None => Raise (AttributeError "_meta")
  end.

(** [while pk_field.rel: pk_field = pk_field.rel.to._meta.pk], with one
    unit of fuel for each turn. *)
Fixpoint follow_pk (fuel : nat) (pk_field : model_field)
  : result model_field :=
  match mf_rel pk_field with
  | None => Ok pk_field
  | Some c =>
      match fuel with
      | 0 => OutOfFuel
      | S fuel' =>
          match nth_error (models w) c with
          | Some m => follow_pk fuel' (mo_pk m)
          | None => Raise (AttributeError "_meta")
          end
      end
  end.

(** [ModelSerializer()], what [get_nested_field] returns. *)
Definition get_nested_field : field :=
  as_field (new_serializer ModelSerializer no_config [] None no_config).

(** [PrimaryKeyRelatedField()] and [Field()], what [get_related_field]
    and [get_field] return: both are leaves, with a flat output. *)
Definition get_related_field : field := Leaf None.
Definition get_field : field := Leaf None.

(** [default_fields], of [BaseSerializer], of [ObjectSerializer] and of
    [ModelSerializer]. In this direction the class argument is [None], so
    that a [ModelSerializer] without an object has no [_meta] to read. The
    chain of primary keys is followed for at most as many turns as there
    are model classes. *)
Definition default_fields (self : serializer) (obj : option oid)
    (nested : nested_opt) : result (sorted_dict field) :=
  match s_kind (attrs self) with
  | BaseSerializer => Ok []
  | ObjectSerializer =>
      match obj with
      | None =>
          Raise (PyException
                   "ObjectSerializer does not support deserialization")
      | Some o =>
          d <- __dict__ o ;;
          for_each
            (fun ret attr =>
               let field := if truthy nested
                            then as_field (new_same_class self)
                            else Leaf None in
               field <- initialize self field ;;
               Ok (SortedDict.set attr field ret))
            (public_attrs d) []
      end
  | ModelSerializer =>
      match obj with
      | None => Raise (AttributeError "_meta")
      | Some o =>
          opts <- model_meta o ;;
          pk_field <- follow_pk (List.length (models w)) (mo_pk opts) ;;
          let fields :=
            [pk_field] ++ filter mf_serialize (mo_fields opts)
                       ++ filter mf_serialize (mo_many_to_many opts) in
          for_each
            (fun ret model_field =>
               let rel := match mf_rel model_field with
                          | Some _ => true
                          | None => false
                          end in
               let field := if rel && truthy nested then get_nested_field
                            else if rel then get_related_field
                            else get_field in
               field <- initialize self field ;;
               Ok (SortedDict.set (mf_name model_field) field ret))
            fields []
      end
  end.

(** The first two steps of [get_fields]: the explicitly declared fields,
    each initialized with [self] as its parent, then the default fields
    under the names that are still free. The model field looked up for a
    declared field is handed to [initialize], which only records it on the
    field; it is left out. The program changes a declared field where it
    is, in [self.fields]; here the field set that is returned holds the
    fields as they are after [initialize], and [s_fields] keeps them as
    they were declared. On every call each declared field is initialized
    anew, so that a field is used with the stack and the [nested] option
    [initialize] has just given it, in the program as here. *)
Definition merged_fields (self : serializer) (obj : option oid)
    (nested : nested_opt) : result (sorted_dict field) :=
  ret <- for_each
           (fun ret kv =>
              field <- initialize self (snd kv) ;;
              Ok (SortedDict.set (fst kv) field ret))
           (SortedDict.items (s_fields self)) [] ;;
  defaults <- default_fields self obj nested ;;
  Ok (fold_left (fun ret kv =>
                   if SortedDict.contains (fst kv) ret then ret
                   else SortedDict.set (fst kv) (snd kv) ret)
                (SortedDict.items defaults) ret).

(** "If 'fields' is specified, use those fields, in that order." *)
Definition use_specified (allow : list string) (ret : sorted_dict field)
  : result (sorted_dict field) :=
  match allow with
  | [] => Ok ret
  | _ =>
      for_each (fun new key =>
                  v <- SortedDict.getitem key ret ;;
                  Ok (SortedDict.set key v new))
               allow []
  end.

(** "Remove anything in 'exclude'" *)
Definition remove_excluded (excl : list string) (ret : sorted_dict field)
  : sorted_dict field :=
  match excl with
  | [] => ret
  | _ => fold_left (fun ret key => SortedDict.pop key ret) excl ret
  end.

(** [get_fields]. The class argument, which only the reverse direction
    uses, is left out. *)
Definition get_fields (self : serializer) (obj : option oid)
    (nested : nested_opt) : result (sorted_dict field) :=
  ret <- merged_fields self obj nested ;;
  ret <- use_specified (fields (opts (attrs self))) ret ;;
  Ok (remove_excluded (exclude (opts (attrs self))) ret).

(** [determine_recursion]: whether the fallback is to be taken, and [self]
    afterwards. *)
Definition determine_recursion (self : serializer) (o : oid)
  : result (bool * serializer) :=
  match stack (attrs self) with
  | None => Raise (AttributeError "stack")
  | Some st =>
      if in_stack o st && negb (is_root (opts (attrs self)))
      then Ok (true, self)
      else Ok (false, with_attrs (set_stack (st ++ [o]) (attrs self)) self)
  end.

Section Body.
(** The recursive call: [self.to_native] of a serializer. *)
Variable to_native_rec : serializer -> value -> result (prim * serializer).

(** [BaseSerializer.field_to_native]: the object and the name of the
    field are recorded on [self]; a root converts the object itself.
    Otherwise [Field.field_to_native] takes over, which is modelled from
    the spec: the value of the attribute named [field_name], converted
    by the field's own [to_native]. *)
Definition BaseSerializer_field_to_native (a : attributes)
    (b fs : sorted_dict field) (o : oid) (name : string) : result prim :=
  let self := mkSerializer (set_obj o name a) b fs in
  if is_root (opts (attrs self))
  then '(p, _) <- to_native_rec self (VRef o) ;; Ok p
  else v <- getattr o name ;;
       '(p, _) <- to_native_rec self v ;; Ok p.

(** [ModelSerializer.field_to_native], which overrides the method above
    and records nothing on [self]. The heap holds no related managers,
    so the branch for them is not taken. *)
Definition ModelSerializer_field_to_native (a : attributes)
    (b fs : sorted_dict field) (o : oid) (name : string) : result prim :=
  let self := mkSerializer a b fs in
  if is_root (opts (attrs self))
  then '(p, _) <- to_native_rec self (VRef o) ;; Ok p
  else v <- getattr o name ;;
       '(p, _) <- to_native_rec self v ;; Ok p.

(** [field.field_to_native(obj, field_name)], by the class of the field.
    For a leaf this is [Field.field_to_native], modelled from the
    spec. *)
Definition field_to_native (f : field) (o : oid) (name : string)
  : result prim :=
  match f with
  | Leaf _ => v <- getattr o name ;; Ok (flat v)
  | Ser a b fs =>
      match s_kind a with
      | ModelSerializer => ModelSerializer_field_to_native a b fs o name
      | _ => BaseSerializer_field_to_native a b fs o name
      end
  end.

(** The branch of [convert_object] for an object found on the stack. *)
Definition cycle_fallback (self : serializer) : result prim :=
  match obj (attrs self) with
  | None => Raise (AttributeError "obj")
  | Some so =>
      fields <- get_fields self (Some so) (NBool false) ;;
      match field_name (attrs self) with
      | None => Raise (AttributeError "field_name")
      | Some name =>
          field <- SortedDict.getitem name fields ;;
          field_to_native field so name
      end
  end.

(** The loop of [convert_object] over the fields. *)
Definition convert_fields (o : oid) (fields : sorted_dict field)
  : result (sorted_dict prim) :=
  for_each (fun ret kv =>
              let key := convert_field_key (fst kv) (snd kv) in
              value <- field_to_native (snd kv) o (fst kv) ;;
              Ok (SortedDict.set key value ret))
           (SortedDict.items fields) [].

Definition convert_object (self : serializer) (o : oid)
  : result (prim * serializer) :=
  '(recursion, self) <- determine_recursion self o ;;
  if recursion then
    p <- cycle_fallback self ;; Ok (p, self)
  else
    fields <- get_fields self (Some o) (nested (opts (attrs self))) ;;
    ret <- convert_fields o fields ;;
    Ok (PMap ret, self).

(** The elements of a sequence, converted in order: the generator
    [to_native] returns for an iterable is taken as the list of what it
    yields to a consumer that runs through it once, depth first. What an
    element raises is given as the result for the sequence: the program
    raises it when the generator is consumed, which is after the call of
    [to_native] has returned. The values of a [dict] are converted within
    the call, in the program as here. *)
Definition convert_items (self : serializer) (xs : list value)
  : result (list prim * serializer) :=
  for_each (fun acc x =>
              '(p, self') <- to_native_rec (snd acc) x ;;
              Ok (fst acc ++ [p], self'))
           xs ([], self).

(** The body of [to_native]. A protected value is returned as it is; the
    values of a [dict] are converted within the call; for a sequence the
    result stands for the generator, consumed as described above; a
    composite object goes to [convert_object]. *)
Definition to_native_body (self : serializer) (v : value)
  : result (prim * serializer) :=
  match v with
  | VScalar s => Ok (PScalar s, self)
  | VDict kvs =>
      '(ps, self') <- convert_items self (map snd kvs) ;;
      Ok (PDict (combine (map fst kvs) ps), self')
  | VList xs =>
      '(ps, self') <- convert_items self xs ;;
      Ok (PSeq ps, self')
  | VRef o => convert_object self o
  end.
End Body.

(** [to_native]. Every call of the method spends one unit of fuel. *)
Fixpoint to_native (fuel : nat) (self : serializer) (v : value)
  : result (prim * serializer) :=
  match fuel with
  | 0 => OutOfFuel
  | S fuel' => to_native_body (to_native fuel') self v
  end.

(** Writing the overrides present in the keyword arguments into
    options. *)
Definition apply_overrides (kw : overrides) (o : options) : options :=
  let o := match o_fields kw with Some l => set_fields l o | None => o end in
  let o := match o_exclude kw with Some l => set_exclude l o | None => o end in
  match o_nested kw with Some n => set_nested n o | None => o end.

(** [hasattr(field, 'opts') and getattr(field.opts, 'is_root', None)] *)
Definition is_root_field (f : field) : bool :=
  match f with
  | Ser a _ _ => is_root (opts a)
  | Leaf _ => false
  end.

(** One turn of the first loop of [serialize]: a field whose options have
    [is_root] set takes the overrides still among the keyword arguments. *)
Definition route_step (acc : sorted_dict field * overrides * bool)
    (kv : string * field) : sorted_dict field * overrides * bool :=
  let '(done, kw, has_root_field) := acc in
  match snd kv with
  | Ser a b fs' =>
      if is_root (opts a)
      then (done ++ [(fst kv,
                      Ser (set_opts (apply_overrides kw (opts a)) a) b fs')],
            no_overrides, true)
      else (done ++ [kv], kw, has_root_field)
  | Leaf _ => (done ++ [kv], kw, has_root_field)
  end.

Definition route_to_root_fields (fs : sorted_dict field) (kw : overrides)
  : sorted_dict field * overrides * bool :=
  fold_left route_step (SortedDict.items fs) ([], kw, false).

(** [self] after [serialize] has reset the stack and placed the
    overrides. *)
Definition prepare (self : serializer) (kw : overrides) : serializer :=
  let a := set_stack [] (attrs self) in
  let '(fs, kw', has_root_field) := route_to_root_fields (s_fields self) kw in
  let a := if has_root_field then a
           else set_opts (apply_overrides kw' (opts a)) a in
  mkSerializer a (base_fields self) fs.

(** [serialize] *)
Definition serialize (fuel : nat) (self : serializer) (format : string)
    (o : value) (kw : overrides) : result (serialized * serializer) :=
  let self := prepare self kw in
  '(data, self) <- to_native fuel self o ;;
  if negb (String.eqb format "python") then
    renderer <- SortedDict.getitem format
                  (renderer_classes (opts (attrs self))) ;;
    Ok (Rendered renderer data, self)
  else Ok (Python data, self).
End Walk.

(** The attributes of a serializer used as a field once its
    [field_to_native] has been entered for the object [o] and the name
    [name]. *)
Definition entered (a : attributes) (o : oid) (name : string) : attributes :=
  match s_kind a with
  | ModelSerializer => a
  | _ => set_obj o name a
  end.

(** ** Measures of a world, for the termination of the walk *)

(** How deep lists and dictionaries are nested in a value. *)
Fixpoint vheight (v : value) : nat :=
  match v with
  | VScalar _ => 0
  | VRef _ => 0
  | VList xs => S (list_max (map vheight xs))
  | VDict kvs => S (list_max (map (fun kv => vheight (snd kv)) kvs))
  end.

(** Every object a value refers to is one of the first [n] objects. *)
Fixpoint value_closed (n : nat) (v : value) : bool :=
  match v with
  | VScalar _ => true
  | VRef o => Nat.ltb o n
  | VList xs => forallb (value_closed n) xs
  | VDict kvs => forallb (fun kv => value_closed n (snd kv)) kvs
  end.

(** Every reference held by an object of the heap is to an object of the
    heap. *)
Definition heap_closed (w : world) : bool :=
  forallb (forallb (fun kv => value_closed (List.length (heap w)) (snd kv)))
          (heap w).

(** The largest height of an attribute value in the heap. *)
Definition heap_height (w : world) : nat :=
  list_max (map (fun d => list_max (map (fun kv => vheight (snd kv)) d))
                (heap w)).

(** The objects of the heap that are not on a stack. *)
Definition unvisited (w : world) (st : list oid) : list oid :=
  filter (fun o => negb (existsb (Nat.eqb o) st)) (seq 0 (List.length (heap w))).

(** Whether an attribute of object [o] holds a reference to [o']. *)
Definition references (w : world) (o o' : oid) : bool :=
  match nth_error (heap w) o with
  | Some d => existsb (fun kv => match snd kv with
                                 | VRef r => Nat.eqb r o'
                                 | _ => false
                                 end) d
  | None => false
  end.

(** [self'] is [self] with a stack that has grown at its end. *)
Definition stack_extended (self self' : serializer) : Prop :=
  match stack (attrs self) with
  | Some st =>
      exists ext, self' = with_attrs (set_stack (st ++ ext) (attrs self)) self
  | None => self' = self
  end.

(** An [ObjectSerializer] class that declares no fields and whose [Meta]
    sets neither [fields] nor [exclude] nor [is_root], on an instance whose
    options agree. *)
Definition plain (self : serializer) : Prop :=
  s_kind (attrs self) = ObjectSerializer
  /\ base_fields self = []
  /\ s_fields self = []
  /\ fields (opts (attrs self)) = []
  /\ exclude (opts (attrs self)) = []
  /\ is_root (opts (attrs self)) = false
  /\ getattr_default c_fields (Meta (attrs self)) [] = []
  /\ getattr_default c_exclude (Meta (attrs self)) [] = []
  /\ getattr_default c_is_root (Meta (attrs self)) false = false.

(** The names of a list, each at its first occurrence. *)
Fixpoint uniq (l : list string) : list string :=
  match l with
  | [] => []
  | k :: r => k :: filter (fun k' => negb (String.eqb k' k)) (uniq r)
  end.

(** Membership of a name in a list of names. *)
Definition mem (k : string) (l : list string) : bool :=
  existsb (String.eqb k) l.

(** ** Serializers and worlds used in examples *)

(** An [ObjectSerializer] subclass whose [Meta] sets [nested]. *)
Definition object_serializer (n : nested_opt) : serializer :=
  new_serializer ObjectSerializer
                 (mkConfig (Some n) None None None None None) [] None
                 no_config.

(** An [==] that holds of no two objects: only identity is left. *)
Definition identity_only : oid -> oid -> bool := fun _ _ => false.

(** A chain of four objects: 0 refers to 1 as [b], 1 to 2 as [c], 2 to 3 as
    [d]. *)
Definition chain_world (d : list (string * value)) : world :=
  object_world [[("b", VRef 1)]; [("c", VRef 2)]; [("d", VRef 3)]; d]
          identity_only.

(** One object with five public attributes and a private one. *)
Definition person_world : world :=
  object_world [[("name", VScalar (SStr "a")); ("id", VScalar (SInt 1));
            ("secret", VScalar (SStr "s")); ("tags", VList []);
            ("email", VScalar SNone); ("_cache", VScalar SNone)]]
          identity_only.

(** An [ObjectSerializer] subclass whose [Meta] sets [fields] and
    [exclude], and which declares the fields [declared]. *)
Definition listing_serializer (allow excl : list string)
    (declared : sorted_dict field) : serializer :=
  new_serializer ObjectSerializer
                 (mkConfig None (Some allow) (Some excl) None None None)
                 declared None no_config.

(** Two objects that refer to each other: 0 has [y], 1 has [x]. *)
Definition xy_world : world :=
  object_world [[("name", VScalar (SStr "x")); ("y", VRef 1)];
           [("x", VRef 0); ("_p", VScalar SNone)]]
          identity_only.

(** An [ObjectSerializer] constructed with [is_root=True]. *)
Definition root_serializer : serializer :=
  new_serializer ObjectSerializer no_config [] None
                 (mkConfig None None None (Some true) None None).

(** A [Serializer] that declares one field, [fields], which is a root
    [ObjectSerializer]. *)
Definition envelope : serializer :=
  new_serializer BaseSerializer no_config
                 [("fields", as_field root_serializer)] None no_config.

(** Two objects whose attribute [c] is the same third object. *)
Definition shared_world : world :=
  object_world [[("c", VRef 2)]; [("c", VRef 2)]; [("v", VScalar (SInt 1))]]
          identity_only.

(** A [Serializer] that declares one field, [c], an [ObjectSerializer]. *)
Definition holder : serializer :=
  new_serializer BaseSerializer no_config
                 [("c", as_field (object_serializer (NBool false)))]
                 None no_config.

(** A serializer at work as the field [field_name] of the object [obj], a
    public attribute of it. *)
Definition converting (w : world) (self : serializer) : Prop :=
  exists so name d,
    obj (attrs self) = Some so
    /\ field_name (attrs self) = Some name
    /\ nth_error (heap w) so = Some d
    /\ In name (public_attrs d).

(** Two model classes with a foreign key to each other: class 0 has the
    primary key [id] and the relation [y] to class 1, class 1 has [id] and
    the relation [x] to class 0. A primary key is not among the fields to
    serialize, it is listed on its own. *)
Definition xy_models : list model_options :=
  [mkModelOptions (mkModelField "id" None false)
                  [mkModelField "id" None false; mkModelField "y" (Some 1) true]
                  [];
   mkModelOptions (mkModelField "id" None false)
                  [mkModelField "id" None false; mkModelField "x" (Some 0) true]
                  []].

(** An instance of each, referring to each other. *)
Definition xy_model_world : world :=
  mkWorld [[("id", VScalar (SInt 1)); ("y", VRef 1)];
           [("id", VScalar (SInt 2)); ("x", VRef 0)]]
          identity_only xy_models
          (fun o => match o with 0 => Some 0 | 1 => Some 1 | _ => None end).

(** A chain of four model instances of one class with the relation [next]:
    0 -> 1 -> 2 -> 3. *)
Definition chain_model_world : world :=
  mkWorld [[("id", VScalar (SInt 1)); ("next", VRef 1)];
           [("id", VScalar (SInt 2)); ("next", VRef 2)];
           [("id", VScalar (SInt 3)); ("next", VRef 3)];
           [("id", VScalar (SInt 4)); ("next", VScalar SNone)]]
          identity_only
          [mkModelOptions (mkModelField "id" None false)
                          [mkModelField "id" None false;
                           mkModelField "next" (Some 0) true]
                          []]
          (fun _ => Some 0).

(** A [ModelSerializer] subclass whose [Meta] sets [nested]. *)
Definition model_serializer (n : nested_opt) : serializer :=
  new_serializer ModelSerializer
                 (mkConfig (Some n) None None None None None) [] None
                 no_config.

(** ** Values without composite objects *)

(** No composite object occurs in the value. *)
Fixpoint ref_free (v : value) : bool :=
  match v with
  | VScalar _ => true
  | VRef _ => false
  | VList xs => forallb ref_free xs
  | VDict kvs => forallb (fun kv => ref_free (snd kv)) kvs
  end.

(** A composite object occurs in the value outside every sequence, as the
    value itself or as a value of a [dict], at any depth: [to_native]
    comes to it within the call, where the elements of a sequence wait
    for the generator to be consumed. *)
Fixpoint met_within_call (v : value) : bool :=
  match v with
  | VScalar _ => false
  | VRef _ => true
  | VList _ => false
  | VDict kvs => existsb (fun kv => met_within_call (snd kv)) kvs
  end.

(** The primitive tree of the same shape as a value. *)
Fixpoint as_prim (v : value) : prim :=
  match v with
  | VScalar s => PScalar s
  | VRef o => PFlat (VRef o)
  | VList xs => PSeq (map as_prim xs)
  | VDict kvs => PDict (map (fun kv => (fst kv, as_prim (snd kv))) kvs)
  end.

(** The value an instance dictionary holds under a name, [None] if there is
    none. *)
Definition attr_value (d : list (string * value)) (name : string) : value :=
  match SortedDict.get name d with
  | Some v => v
  | None => VScalar SNone
  end.

(** The formats [serialize] accepts when [Meta] sets no renderers. *)
Definition default_formats : list string :=
  ["python"; "xml"; "json"; "yaml"; "csv"; "html"].

(** ** Model fields *)

(** The model fields [ModelSerializer.default_fields] goes through: the
    primary key, then the fields and the many-to-many fields that are to be
    serialized. *)
Definition serialized_model_fields (pk : model_field) (m : model_options)
  : list model_field :=
  [pk] ++ filter mf_serialize (mo_fields m)
       ++ filter mf_serialize (mo_many_to_many m).

(** ** The way back: from primitives to objects *)

(** The data [from_native] reverts: protected scalars, dictionaries with
    string keys and sequences, which is what a parser yields. *)
Inductive native :=
| NScalar (s : scalar)
| NDict (kvs : list (string * native))
| NList (xs : list native).

(** How deep sequences and dictionaries are nested in the data. *)
Fixpoint nheight (d : native) : nat :=
  match d with
  | NScalar _ => 0
  | NList xs => S (list_max (map nheight xs))
  | NDict kvs => S (list_max (map (fun kv => nheight (snd kv)) kvs))
  end.

(** What [from_native] returns. [RGen] is the generator it returns for a
    sequence, given by what it yields to a consumer that runs through it
    and by the exception that ends it, if one does: nothing is raised
    before the generator is consumed. [RAttrs] is a [dict] of attributes,
    its keys in the order in which they were first bound.
    [RObject c kwargs m2m_data] is the [DeserializedObject] of an instance
    of the model class [c] and of [m2m_data], the instance given by the
    keyword arguments its constructor is called with. *)
Inductive revived :=
| RScalar (s : scalar)
| RGen (yields : list revived) (raises : option error)
| RAttrs (kvs : list (string * revived))
| RObject (cls : nat) (kwargs m2m_data : list (string * revived)).

(** [TypeError] and [ValueError], which Python's [dict.update] raises: the
    two are told apart by the name of their class, their messages are left
    out. *)
Definition TypeError : error := PyException "TypeError".
Definition ValueError : error := PyException "ValueError".

(** What [deserialize] is given: a byte string, or a tree of primitives. *)
Inductive source :=
| Text (s : string)
| Tree (d : native).

(** What code outside the sources returns or raises. *)
Definition returned {A : Type} (r : A + error) : result A :=
  match r with
  | inl a => Ok a
  | inr e => Raise e
  end.

(** [data.get(field_name)] *)
Definition data_get (data : list (string * native)) (field_name : string)
  : native :=
  match SortedDict.get field_name data with
  | Some d => d
  | None => NScalar SNone
  end.

(** [revert_class], of [BaseSerializer] and of [ModelSerializer]: a root
    asks its parent, and a serializer that was never initialized as a field
    has [None] for a parent. [parents] are the serializers above [self],
    the nearest first. The embedded options have no [model]: for a
    [ModelSerializer] that is not a root the answer is the default of that
    option, [None], as it is for the other classes. The argument [data] is
    not used by the method and is left out. *)
Fixpoint revert_class (self : attributes) (parents : list attributes)
  : result (option nat) :=
  if is_root (opts self) then
    match parents with
    | [] => Raise (AttributeError "revert_class")
    | parent :: above => revert_class parent above
    end
  else Ok None.

(** One turn of the loop of [ModelSerializer.create_object]. *)
Definition take_many_to_many
    (acc : list (string * revived) * list (string * revived))
    (field : model_field)
  : list (string * revived) * list (string * revived) :=
  let '(attrs, m2m_data) := acc in
  match SortedDict.get (mf_name field) attrs with
  | Some v => (SortedDict.pop (mf_name field) attrs,
               SortedDict.set (mf_name field) v m2m_data)
  | None => acc
  end.

Section Back.
Variable w : world.

(** [Field.field_from_native] of serializers/fields.py, which is not among
    the sources: what a leaf field with the given label makes of [into],
    for the data and the name of the field, or the exception it raises. *)
Variable Field_field_from_native :
  option string -> list (string * native) -> string ->
  list (string * revived) -> list (string * revived) + error.

(** Python's [dict.update] for a generator: what becomes of the dictionary
    when the pairs are taken from what the generator yields. *)
Variable update_from_generator :
  list (string * revived) -> list revived -> option error ->
  list (string * revived) + error.

(** The parser classes of serializers/parsers.py, which are not among the
    sources: what the [parse] of the class of the given name returns. *)
Variable parser_parse : string -> source -> native + error.

(** [into.update(field_data)]. A [dict] is merged key by key. [None], a
    number, a truth value and a [DeserializedObject] are not iterable. A
    string is gone through character by character, and a character is no
    pair. *)
Definition dict_update (into : list (string * revived))
    (field_data : revived) : result (list (string * revived)) :=
  match field_data with
  | RAttrs kvs =>
      Ok (fold_left (fun d kv => SortedDict.set (fst kv) (snd kv) d) kvs into)
  | RScalar (SStr s) =>
      if String.eqb s EmptyString then Ok into else Raise ValueError
  | RScalar _ => Raise TypeError
  | RGen ys e => returned (update_from_generator into ys e)
  | RObject _ _ _ => Raise TypeError
  end.

(** [BaseSerializer.create_object] *)
Definition BaseSerializer_create_object (attributes : list (string * revived))
  : result revived :=
  Ok (RAttrs attributes).

(** [ModelSerializer.create_object]. As in [model_meta], a model class is
    its own concrete model. *)
Definition ModelSerializer_create_object (cls : option nat)
    (attributes : list (string * revived)) : result revived :=
  match cls with
  | None => Raise (AttributeError "_meta")
  | Some c =>
      match nth_error (models w) c with
      | None => Raise (AttributeError "_meta")
      | Some m =>
          let '(attributes, m2m_data) :=
            fold_left take_many_to_many (mo_many_to_many m) (attributes, []) in
          Ok (RObject c attributes m2m_data)
      end
  end.

Definition create_object (self : serializer) (cls : option nat)
    (attributes : list (string * revived)) : result revived :=
  match s_kind (attrs self) with
  | ModelSerializer => ModelSerializer_create_object cls attributes
  | _ => BaseSerializer_create_object attributes
  end.

Section BackBody.
(** The recursive call: [self.from_native] of a serializer below the given
    parents. *)
Variable from_native_rec :
  serializer -> list attributes -> native -> result revived.

(** [field_from_native], of a leaf and of a serializer. [parents] are the
    serializer the field belongs to and the serializers above it. The
    attribute [data] that a serializer assigns is only ever handed to
    [revert_class], which makes no use of it. *)
Definition field_from_native (parents : list attributes) (f : field)
    (data : list (string * native)) (field_name : string)
    (into : list (string * revived)) : result (list (string * revived)) :=
  match f with
  | Leaf l => returned (Field_field_from_native l data field_name into)
  | Ser a b fs =>
      field_data <- from_native_rec (mkSerializer a b fs) parents
                                    (data_get data field_name) ;;
      if is_root (opts a) then dict_update into field_data
      else Ok (SortedDict.set field_name field_data into)
  end.

(** [revert_fields]. The fields are those [get_fields] gives without an
    object; each of them has [self] for a parent. *)
Definition revert_fields (self : serializer) (parents : list attributes)
    (data : list (string * native)) (cls : option nat)
  : result (list (string * revived)) :=
  fields <- get_fields w self None (nested (opts (attrs self))) ;;
  for_each (fun reverted_data kv =>
              field_from_native (attrs self :: parents) (snd kv) data (fst kv)
                                reverted_data)
           (SortedDict.items fields) [].

(** The generator [from_native] returns for a sequence: what it yields,
    and the exception that ends it when the reverting of an element
    raises. *)
Fixpoint revert_items (self : serializer) (parents : list attributes)
    (xs : list native) : result (list revived * option error) :=
  match xs with
  | [] => Ok ([], None)
  | x :: rest =>
      match from_native_rec self parents x with
      | Ok y =>
          '(ys, e) <- revert_items self parents rest ;; Ok (y :: ys, e)
      | Raise e => Ok ([], Some e)
      | OutOfFuel => OutOfFuel
      end
  end.

Definition from_native_body (self : serializer) (parents : list attributes)
    (data : native) : result revived :=
  match data with
  | NScalar s => Ok (RScalar s)
  | NList xs =>
      '(ys, e) <- revert_items self parents xs ;; Ok (RGen ys e)
  | NDict kvs =>
      cls <- revert_class (attrs self) parents ;;
      attributes <- revert_fields self parents kvs cls ;;
      create_object self cls attributes
  end.
End BackBody.

(** [from_native]. Every call of the method spends one unit of fuel. *)
Fixpoint from_native (fuel : nat) (self : serializer)
    (parents : list attributes) (data : native) : result revived :=
  match fuel with
  | 0 => OutOfFuel
  | S fuel' => from_native_body (from_native fuel') self parents data
  end.

(** The first stage of [deserialize]: the primitives, which the parser
    class of the format makes of the input unless the format is
    ['python']. *)
Definition primitives (self : serializer) (format : string)
    (stream_or_string : source) : result native :=
  if negb (String.eqb format "python") then
    parser <- SortedDict.getitem format (parser_classes (opts (attrs self))) ;;
    returned (parser_parse parser stream_or_string)
  else
    match stream_or_string with
    | Text s => Ok (NScalar (SStr s))
    | Tree d => Ok d
    end.

(** [deserialize], for a serializer that is not a field of another:
    what it returns and [self] afterwards. *)
Definition deserialize (fuel : nat) (self : serializer) (format : string)
    (stream_or_string : source) : result (revived * serializer) :=
  let self := with_attrs (set_stack [] (attrs self)) self in
  data <- primitives self format stream_or_string ;;
  r <- from_native fuel self [] data ;;
  Ok (r, self).
End Back.


(** ** Stand-ins used in examples of the way back *)

(** A leaf field that contributes nothing. *)
Definition no_contribution (_ : option string)
    (_ : list (string * native)) (_ : string)
    (into : list (string * revived)) : list (string * revived) + error :=
  inl into.

(** An update that finds no pair in what a generator yields. *)
Definition no_pairs (_ : list (string * revived)) (_ : list revived)
    (_ : option error) : list (string * revived) + error :=
  inr TypeError.

(** A parser that takes a text for a string and a tree for itself. *)
Definition plain_parser (_ : string) (s : source) : native + error :=
  match s with
  | Text t => inl (NScalar (SStr t))
  | Tree d => inl d
  end.

(** One model class with a primary key, a title and one many-to-many
    relation, [tags]; no instances. *)
Definition tagged_world : world :=
  mkWorld [] identity_only
          [mkModelOptions (mkModelField "id" None false)
                          [mkModelField "id" None false;
                           mkModelField "title" None true]
                          [mkModelField "tags" (Some 0) true]]
          (fun _ => None).

(** A [Serializer] that declares two leaf fields, [a] and [b], with the
    same label, and an object with these two attributes. *)
Definition relabelled : serializer :=
  new_serializer BaseSerializer no_config
                 [("a", Leaf (Some "n")); ("b", Leaf (Some "n"))]
                 None no_config.

Definition ab_world : world :=
  object_world [[("a", VScalar (SInt 1)); ("b", VScalar (SInt 2))]]
               identity_only.
(** * Properties *)

(** ** The stable sort *)

Section SortFacts.
Variable A : Type.
Variable leb : A -> A -> bool.
Hypothesis leb_total : forall x y, leb x y = true \/ leb y x = true.

Lemma insert_sorted_perm (x : A) (l : list A) :
  Permutation (x :: l) (insert_sorted leb x l).
Proof.
  induction l as [|y r IH]; simpl; [apply Permutation_refl|].
  destruct (leb x y); [apply Permutation_refl|].
  eapply perm_trans; [apply perm_swap|].
  now apply perm_skip.
Qed.

Lemma py_sorted_perm (l : list A) : Permutation l (py_sorted leb l).
Proof.
  induction l as [|x r IH]; simpl; [constructor|].
  eapply perm_trans; [apply perm_skip, IH|].
  apply insert_sorted_perm.
Qed.

Lemma insert_sorted_hd (x y : A) (l : list A) :
  HdRel (fun a b => leb a b = true) y l -> leb y x = true ->
  HdRel (fun a b => leb a b = true) y (insert_sorted leb x l).
Proof.
  intros H Hyx. destruct l as [|z r]; simpl.
  - now constructor.
  - destruct (leb x z); constructor; [assumption|].
    now inversion H.
Qed.

Lemma insert_sorted_ok (x : A) (l : list A) :
  Sorted (fun a b => leb a b = true) l ->
  Sorted (fun a b => leb a b = true) (insert_sorted leb x l).
Proof.
  induction 1 as [|y r Hs IH Hhd]; simpl.
  - repeat constructor.
  - destruct (leb x y) eqn:E.
    + constructor; [now constructor|now constructor].
    + constructor; [assumption|].
      apply insert_sorted_hd; [assumption|].
      destruct (leb_total x y) as [H|H]; congruence.
Qed.

Lemma py_sorted_ok (l : list A) :
  Sorted (fun a b => leb a b = true) (py_sorted leb l).
Proof.
  induction l as [|x r IH]; simpl; [constructor|].
  now apply insert_sorted_ok.
Qed.
End SortFacts.

(** ** The sorted dictionary *)

Module SortedDictFacts.
Import SortedDict.
Section Facts.
Variable V : Type.
Implicit Types (d : t V) (k : string) (v : V).

Lemma mem_In k l : mem k l = true <-> In k l.
Proof.
  unfold mem. rewrite existsb_exists. split.
  - intros (x & Hin & E). apply String.eqb_eq in E. now subst.
  - intros H. exists k. split; [assumption|apply String.eqb_refl].
Qed.

Lemma mem_false k l : mem k l = false <-> ~ In k l.
Proof.
  rewrite <- mem_In. destruct (mem k l); split; congruence.
Qed.

Lemma get_None k d : get k d = None <-> ~ In k (keys d).
Proof.
  induction d as [|[k' v'] r IH]; simpl.
  - tauto.
  - destruct (String.eqb_spec k k') as [->|Hne].
    + split; [discriminate|]. intros H. exfalso. apply H. now left.
    + rewrite IH. split.
      * intros H [E|Hin]; [congruence|contradiction].
      * intros H Hin. apply H. now right.
Qed.

Lemma contains_mem k d : contains k d = mem k (keys d).
Proof.
  unfold contains. destruct (get k d) eqn:E.
  - symmetry. apply mem_In. destruct (in_dec string_dec k (keys d)) as [H|H];
      [assumption|]. apply get_None in H. congruence.
  - symmetry. apply mem_false. now apply get_None.
Qed.

Lemma get_In k v d : get k d = Some v -> In (k, v) d.
Proof.
  induction d as [|[k' v'] r IH]; simpl; [discriminate|].
  destruct (String.eqb_spec k k') as [->|Hne].
  - intros [= ->]. now left.
  - intros H. right. now apply IH.
Qed.

Lemma In_get k v d : NoDup (keys d) -> In (k, v) d -> get k d = Some v.
Proof.
  induction d as [|[k' v'] r IH]; simpl; [tauto|].
  intros Hnd [E|Hin].
  - injection E as -> ->. now rewrite String.eqb_refl.
  - inversion Hnd as [|? ? Hnot Hnd']; subst.
    destruct (String.eqb_spec k k') as [->|Hne].
    + exfalso. apply Hnot. now apply (in_map fst) in Hin.
    + now apply IH.
Qed.

Lemma keys_set k v d :
  keys (set k v d) = if mem k (keys d) then keys d else keys d ++ [k].
Proof.
  induction d as [|[k' v'] r IH]; simpl; [reflexivity|].
  destruct (String.eqb k k'); simpl; [reflexivity|].
  rewrite IH. now destruct (mem k (keys r)).
Qed.

Lemma get_set k' k v d :
  get k' (set k v d) = if String.eqb k' k then Some v else get k' d.
Proof.
  induction d as [|[k0 v0] r IH]; simpl.
  - reflexivity.
  - destruct (String.eqb_spec k k0) as [->|Hne]; simpl.
    + now destruct (String.eqb k' k0).
    + rewrite IH. destruct (String.eqb_spec k' k0) as [->|Hne'].
      * destruct (String.eqb_spec k0 k); [congruence|reflexivity].
      * reflexivity.
Qed.

Lemma NoDup_keys_set k v d : NoDup (keys d) -> NoDup (keys (set k v d)).
Proof.
  intros H. rewrite keys_set. destruct (mem k (keys d)) eqn:E; [assumption|].
  apply mem_false in E.
  apply NoDup_app; [assumption|repeat constructor; tauto|].
  intros x Hx [<-|[]]. contradiction.
Qed.

Lemma keys_pop k d :
  keys (pop k d) = filter (fun k' => negb (String.eqb k k')) (keys d).
Proof.
  induction d as [|[k' v'] r IH]; simpl; [reflexivity|].
  destruct (String.eqb k k'); simpl; now rewrite IH.
Qed.

Lemma get_pop k' k d :
  get k' (pop k d) = if String.eqb k' k then None else get k' d.
Proof.
  induction d as [|[k0 v0] r IH]; simpl.
  - now destruct (String.eqb k' k).
  - destruct (String.eqb_spec k k0) as [->|Hne]; simpl.
    + rewrite IH. destruct (String.eqb k' k0); reflexivity.
    + rewrite IH. destruct (String.eqb_spec k' k0) as [->|Hne'];
        [|reflexivity].
      destruct (String.eqb_spec k0 k); [congruence|reflexivity].
Qed.

(** A run of assignments from a list of pairs with distinct keys. *)
Lemma keys_set_all (l : list (string * V)) d :
  NoDup (map fst l) ->
  keys (fold_left (fun d kv => set (fst kv) (snd kv) d) l d)
  = keys d ++ filter (fun k => negb (mem k (keys d))) (map fst l).
Proof.
  revert d. induction l as [|[k v] r IH]; intros d Hnd; simpl.
  - now rewrite app_nil_r.
  - inversion Hnd as [|? ? Hnot Hnd']; subst.
    rewrite IH by assumption. rewrite keys_set.
    destruct (mem k (keys d)) eqn:E; simpl; [reflexivity|].
    rewrite <- app_assoc. simpl. do 2 f_equal.
    apply filter_ext_in. intros x Hx. unfold mem at 1.
    rewrite existsb_app. simpl. fold (mem x (keys d)).
    destruct (String.eqb_spec x k) as [->|]; [contradiction|].
    now rewrite !orb_false_r.
Qed.

Lemma get_set_all (l : list (string * V)) d k :
  NoDup (map fst l) ->
  get k (fold_left (fun d kv => set (fst kv) (snd kv) d) l d)
  = match get k l with Some v => Some v | None => get k d end.
Proof.
  revert d. induction l as [|[k1 v1] r IH]; intros d Hnd; simpl.
  - reflexivity.
  - inversion Hnd as [|? ? Hnot Hnd']; subst.
    rewrite IH by assumption. rewrite get_set.
    destruct (String.eqb_spec k k1) as [->|Hne]; [|reflexivity].
    assert (get k1 r = None) as -> by now apply get_None.
    reflexivity.
Qed.

Lemma of_pairs_NoDup (l : list (string * V)) :
  NoDup (map fst l) -> of_pairs l = l.
Proof.
  unfold of_pairs. intros H.
  enough (forall d, NoDup (map fst (d ++ l)) ->
            fold_left (fun d kv => set (fst kv) (snd kv) d) l d = d ++ l)
    as E by exact (E [] H).
  clear H. induction l as [|[k v] r IH]; intros d Hnd; simpl.
  - now rewrite app_nil_r.
  - assert (set k v d = d ++ [(k, v)]) as ->.
    { rewrite map_app in Hnd. apply NoDup_remove_2 in Hnd.
      assert (~ In k (keys d)) as Hk
          by (intros Hin; apply Hnd, in_or_app; now left).
      clear - Hk. induction d as [|[k' v'] d IH]; simpl; [reflexivity|].
      destruct (String.eqb_spec k k') as [->|Hne].
      - exfalso. apply Hk. now left.
      - f_equal. apply IH. intros Hin. apply Hk. now right. }
    rewrite IH; rewrite <- app_assoc; simpl; [reflexivity|assumption].
Qed.
End Facts.
End SortedDictFacts.

(** ** Declared fields across inheritance *)

Section DeclaredFieldsFacts.
Import SortedDict SortedDictFacts.
Variable F : Type.
Variable creation_counter : F -> Z.

Lemma by_counter_total (x y : string * F) :
  by_counter creation_counter x y = true
  \/ by_counter creation_counter y x = true.
Proof. unfold by_counter. lia. Qed.

Lemma own_fields_keys (attrs : list (string * class_attr F)) k :
  In k (map fst (own_fields attrs)) -> In k (map fst attrs).
Proof.
  induction attrs as [|[k' [f|]] r IH]; simpl; tauto.
Qed.

Lemma own_fields_NoDup (attrs : list (string * class_attr F)) :
  NoDup (map fst attrs) -> NoDup (map fst (own_fields attrs)).
Proof.
  induction attrs as [|[k' [f|]] r IH]; simpl; intros H;
    inversion H; subst; auto.
  constructor; auto. intros Hin. now apply own_fields_keys in Hin.
Qed.

Lemma single_base (base : sorted_dict F) attrs :
  NoDup (keys base) ->
  _get_declared_fields creation_counter [Some base] attrs
  = fold_left (fun d kv => set (fst kv) (snd kv) d)
              (py_sorted (by_counter creation_counter) (own_fields attrs))
              base.
Proof.
  intros Hb. unfold _get_declared_fields, of_pairs, items. simpl.
  rewrite fold_left_app. f_equal.
  exact (of_pairs_NoDup base Hb).
Qed.

Lemma Sorted_weaken (A : Type) (R R' : A -> A -> Prop) (l : list A) :
  (forall x y, R x y -> R' x y) -> Sorted R l -> Sorted R' l.
Proof.
  intros HR. induction 1 as [|x r Hs IH Hhd]; constructor; auto.
  destruct Hhd; constructor; auto.
Qed.

(** C2. A class with one base class: the fields of the base come first,
    in their order; the fields the class declares itself follow, ordered
    by creation counter, except that a field declared under a name of the
    base takes the place and the position of the base's field. Base fields
    A, B, C with a class that adds D and declares B again resolve to
    A, B (the new one), C, D. *)
Theorem declared_fields_inheritance_order
    (base : sorted_dict F) (attrs : list (string * class_attr F)) :
  NoDup (keys base) ->
  NoDup (map fst attrs) ->
  let own := py_sorted (by_counter creation_counter) (own_fields attrs) in
  let r := _get_declared_fields creation_counter [Some base] attrs in
  Sorted (fun x y => (creation_counter (snd x) <= creation_counter (snd y))%Z)
         own
  /\ Permutation (own_fields attrs) own
  /\ keys r = keys base
              ++ filter (fun k => negb (contains k base)) (map fst own)
  /\ (forall k f, In (k, f) (own_fields attrs) -> get k r = Some f)
  /\ (forall k, ~ In k (map fst (own_fields attrs)) -> get k r = get k base)
  /\ (forall fa fb fc fd fb',
        _get_declared_fields creation_counter
          [Some [("A", fa); ("B", fb); ("C", fc)]]
          [("D", IsField fd); ("B", IsField fb')]
        = [("A", fa); ("B", fb'); ("C", fc); ("D", fd)]
        /\ _get_declared_fields creation_counter
             [Some [("A", fa); ("B", fb); ("C", fc)]]
             [("B", IsField fb'); ("D", IsField fd)]
           = [("A", fa); ("B", fb'); ("C", fc); ("D", fd)]).
Proof.
  intros Hb Ha own r.
  assert (Permutation (own_fields attrs) own) as Hperm
      by apply py_sorted_perm.
  assert (NoDup (map fst own)) as Hown.
  { eapply Permutation_NoDup; [apply Permutation_map, Hperm|].
    now apply own_fields_NoDup. }
  assert (r = fold_left (fun d kv => set (fst kv) (snd kv) d) own base)
    as Hr by now apply single_base.
  split; [|split; [exact Hperm|split; [|split; [|split]]]].
  - eapply Sorted_weaken; [|apply py_sorted_ok, by_counter_total].
    unfold by_counter. intros x y H. lia.
  - rewrite Hr, keys_set_all by assumption. f_equal.
    apply filter_ext. intros k. now rewrite contains_mem.
  - intros k f Hin. rewrite Hr, get_set_all by assumption.
    erewrite In_get; [reflexivity|assumption|].
    eapply Permutation_in; [apply Hperm|assumption].
  - intros k Hk. rewrite Hr, get_set_all by assumption.
    assert (get k own = None) as ->; [|reflexivity].
    apply get_None. intros Hin. apply Hk.
    eapply Permutation_in; [apply Permutation_map, Permutation_sym, Hperm|].
    exact Hin.
  - intros fa fb fc fd fb'. unfold _get_declared_fields, by_counter.
    simpl. split.
    + destruct (creation_counter fd <=? creation_counter fb')%Z; reflexivity.
    + destruct (creation_counter fb' <=? creation_counter fd)%Z; reflexivity.
Qed.
End DeclaredFieldsFacts.

(** The classes of the example of C2, with the creation counter as the
    field. *)
Lemma declared_fields_inheritance_order_witness :
  let base := [("A", 1%Z); ("B", 2%Z); ("C", 3%Z)] in
  let attrs := [("D", IsField 5%Z); ("doc", NotField); ("B", IsField 4%Z)] in
  NoDup (SortedDict.keys base) /\ NoDup (map fst attrs)
  /\ SortedDict.keys (_get_declared_fields (fun z => z) [Some base] attrs)
     = ["A"; "B"; "C"; "D"]
  /\ SortedDict.get "B" (_get_declared_fields (fun z => z) [Some base] attrs)
     = Some 4%Z.
Proof.
  intros base attrs.
  assert (NoDup (SortedDict.keys base)) as Hb.
  { simpl. repeat constructor; simpl; intuition discriminate. }
  assert (NoDup (map fst attrs)) as Ha.
  { simpl. repeat constructor; simpl; intuition discriminate. }
  pose proof (@declared_fields_inheritance_order Z (fun z => z) base attrs
                Hb Ha) as (_ & _ & Hk & Hg & _).
  split; [exact Hb|split; [exact Ha|split]].
  - etransitivity; [exact Hk|reflexivity].
  - apply Hg. simpl. right. now left.
Defined.

(** ** Options *)

(** C4, as stated, fails: a [nested] keyword passed to the constructor is
    not looked at, the option comes from [Meta] or the default. *)
Lemma constructor_keyword_nested_ignored :
  let kwargs := mkConfig (Some (NBool true)) None None None None None in
  nested (SerializerOptions no_config kwargs) = NBool false
  /\ nested (SerializerOptions no_config kwargs)
     <> _get_option c_nested kwargs no_config (NBool false).
Proof. split; [reflexivity|discriminate]. Qed.

(** C4, amended. [is_root] is resolved from the keyword arguments of the
    constructor, then from [Meta], then from the default [False]. The other
    options ([nested], [fields], [exclude] and the two registries) are
    resolved from [Meta], then from their default, and do not depend on the
    keyword arguments. Resolution is total: it yields options whatever the
    sources hold. *)
Theorem options_resolution_order (meta kwargs : config) :
  let o := SerializerOptions meta kwargs in
  is_root o = match c_is_root kwargs, c_is_root meta with
              | Some b, _ => b
              | None, Some b => b
              | None, None => false
              end
  /\ nested o = match c_nested meta with Some n => n | None => NBool false end
  /\ fields o = match c_fields meta with Some l => l | None => [] end
  /\ exclude o = match c_exclude meta with Some l => l | None => [] end
  /\ renderer_classes o = match c_renderer_classes meta with
                          | Some r => r
                          | None => default_renderer_classes
                          end
  /\ parser_classes o = match c_parser_classes meta with
                        | Some r => r
                        | None => default_parser_classes
                        end
  /\ (forall kwargs', c_is_root kwargs' = c_is_root kwargs ->
                      SerializerOptions meta kwargs' = o).
Proof.
  unfold SerializerOptions, _get_option, kwargs_get, getattr_default.
  cbv zeta. simpl.
  split; [now destruct (c_is_root kwargs), (c_is_root meta)|].
  do 5 (split; [reflexivity|]).
  intros kwargs' E. now rewrite E.
Qed.

(** ** The nesting budget *)

(** C3. A serializer initialized as a field of a parent whose [nested]
    option is a boolean or a budget gets [parent.nested - 1] as its own
    [nested] option when the parent's is a positive integer, and the
    parent's own value otherwise, that is when it is a boolean or zero; what
    it gets is again a boolean or a budget. With [nested = 2] a chain
    A -> B -> C -> D, of plain objects under an [ObjectSerializer] or of
    model instances under a [ModelSerializer], gives B and C as mappings and
    D as a flat value. *)
Theorem child_nested_budget (parent : serializer) (a : attributes)
    (b fs : list (string * field)) (st : list oid) :
  stack (attrs parent) = Some st ->
  valid_nested (nested (opts (attrs parent))) = true ->
  (exists a',
      initialize parent (Ser a b fs) = Ok (Ser a' b fs)
      /\ stack a' = Some st
      /\ nested (opts a')
         = match nested (opts (attrs parent)) with
           | NInt z => if (0 <? z)%Z then NInt (z - 1)
                       else nested (opts (attrs parent))
           | NBool _ => nested (opts (attrs parent))
           end
      /\ valid_nested (nested (opts a')) = true)
  /\ (forall d fuel, exists self',
         serialize (chain_world d) (3 + fuel) (object_serializer (NInt 2))
                   "python" (VRef 0) no_overrides
         = Ok (Python (PMap [("b", PMap [("c", PMap [("d", PFlat (VRef 3))])])]),
               self'))
  /\ (forall fuel, exists self',
         serialize chain_model_world (3 + fuel) (model_serializer (NInt 2))
                   "python" (VRef 0) no_overrides
         = Ok (Python
                 (PMap [("id", PScalar (SInt 1));
                        ("next",
                         PMap [("id", PScalar (SInt 2));
                               ("next",
                                PMap [("id", PScalar (SInt 3));
                                      ("next", PFlat (VRef 3))])])]),
               self')).
Proof.
  intros Hst Hv. split.
  - unfold initialize. rewrite Hst. eexists. split; [reflexivity|].
    split; [reflexivity|]. simpl.
    destruct (nested (opts (attrs parent))) as [flag|z]; simpl in *.
    + rewrite andb_false_r. split; reflexivity.
    + rewrite andb_true_r. apply Z.leb_le in Hv.
      destruct (Z.eqb_spec z 0) as [->|Hz]; simpl; [split; reflexivity|].
      destruct (Z.ltb_spec 0 z) as [Hpos|Hneg]; [|lia].
      split; [reflexivity|]. simpl. apply Z.leb_le. lia.
  - split.
    + intros d fuel. eexists. reflexivity.
    + intros fuel. eexists. reflexivity.
Qed.

Lemma child_nested_budget_witness :
  let parent := with_attrs (set_stack [7] (attrs (object_serializer (NInt 2))))
                           (object_serializer (NInt 2)) in
  stack (attrs parent) = Some [7]
  /\ valid_nested (nested (opts (attrs parent))) = true
  /\ exists a',
      initialize parent (as_field (object_serializer (NBool false)))
      = Ok (Ser a' [] [])
      /\ stack a' = Some [7]
      /\ nested (opts a') = NInt 1.
Proof.
  intros parent. split; [reflexivity|]. split; [reflexivity|].
  destruct (@child_nested_budget parent
              (attrs (object_serializer (NBool false))) [] [] [7]
              eq_refl eq_refl)
    as [(a' & H1 & H2 & H3 & _) _].
  exists a'. repeat split; assumption.
Defined.

(** ** Loops that fill a sorted dictionary *)

Lemma bind_Ok {A B} (m : result A) (k : A -> result B) (b : B) :
  bind m k = Ok b -> exists a, m = Ok a /\ k a = Ok b.
Proof. destruct m; simpl; try discriminate. intros H. now exists a. Qed.

Section Loops.
Import SortedDict SortedDictFacts.
Variable V : Type.

Local Notation set_pair := (fun (d : t V) kv => set (fst kv) (snd kv) d).

Lemma filter_absorb (A : Type) (f g : A -> bool) (l : list A) :
  (forall x, f x = true -> g x = true) ->
  filter f (filter g l) = filter f l.
Proof.
  intros H. induction l as [|x r IH]; simpl; [reflexivity|].
  destruct (g x) eqn:G; simpl; rewrite IH; [reflexivity|].
  destruct (f x) eqn:E; [|reflexivity].
  apply H in E. congruence.
Qed.

Lemma filter_twice (A : Type) (f g : A -> bool) (l : list A) :
  filter f (filter g l) = filter (fun x => f x && g x) l.
Proof.
  induction l as [|x r IH]; simpl; [reflexivity|].
  destruct (g x); simpl; rewrite IH.
  - now rewrite andb_true_r.
  - now rewrite andb_false_r.
Qed.

Lemma uniq_NoDup_id (l : list string) : NoDup l -> uniq l = l.
Proof.
  induction 1 as [|k r Hk Hnd IH]; simpl; [reflexivity|].
  rewrite IH. f_equal. apply forallb_filter_id, forallb_forall.
  intros x Hx. destruct (String.eqb_spec x k); [congruence|reflexivity].
Qed.

(** The keys after a run of assignments: the keys there were, then the
    new ones at their first occurrence. *)
Lemma keys_set_seq (l : list (string * V)) (d : t V) :
  keys (fold_left set_pair l d)
  = keys d ++ filter (fun k => negb (mem k (keys d))) (uniq (map fst l)).
Proof.
  revert d. induction l as [|[k v] r IH]; intros d; simpl.
  - now rewrite app_nil_r.
  - rewrite IH, keys_set. destruct (mem k (keys d)) eqn:E; simpl.
    + f_equal. symmetry. apply filter_absorb. intros x Hx.
      destruct (String.eqb_spec x k) as [->|]; [|reflexivity].
      rewrite E in Hx. discriminate.
    + rewrite <- app_assoc. simpl. do 2 f_equal.
      rewrite filter_twice. apply filter_ext. intros x.
      unfold mem at 1. rewrite existsb_app. simpl.
      fold (mem x (keys d)). rewrite orb_false_r.
      now rewrite negb_orb.
Qed.

Lemma keys_set_seq_nil (l : list (string * V)) :
  keys (fold_left set_pair l []) = uniq (map fst l).
Proof.
  rewrite keys_set_seq. simpl.
  apply forallb_filter_id, forallb_forall. reflexivity.
Qed.

Lemma get_set_seq (l : list (string * V)) (d : t V) k v :
  get k (fold_left set_pair l d) = Some v ->
  In (k, v) l \/ get k d = Some v.
Proof.
  revert d. induction l as [|[k1 v1] r IH]; intros d; simpl; [tauto|].
  intros H. apply IH in H. destruct H as [H|H]; [tauto|].
  rewrite get_set in H. destruct (String.eqb_spec k k1) as [->|].
  - injection H as ->. tauto.
  - tauto.
Qed.

Section ForEachSet.
Variable A : Type.
Variable key : A -> string.
Variable val : A -> result V.

Local Notation body :=
  (fun (ret : t V) (a : A) => v <- val a ;; Ok (set (key a) v ret)).

Lemma for_each_set_inv (l : list A) (d d' : t V) :
  for_each body l d = Ok d' ->
  exists pairs,
    Forall2 (fun a kv => fst kv = key a /\ val a = Ok (snd kv)) l pairs
    /\ d' = fold_left set_pair pairs d.
Proof.
  revert d. induction l as [|a r IH]; intros d; simpl.
  - intros [= <-]. exists []. split; [constructor|reflexivity].
  - intros H. apply bind_Ok in H. destruct H as (d1 & H1 & H2).
    apply bind_Ok in H1. destruct H1 as (v & Hv & [= <-]).
    apply IH in H2. destruct H2 as (pairs & HF & ->).
    exists ((key a, v) :: pairs). split; [|reflexivity].
    constructor; [now split|assumption].
Qed.

Lemma for_each_set_ok (l : list A) (pairs : list (string * V)) (d : t V) :
  Forall2 (fun a kv => fst kv = key a /\ val a = Ok (snd kv)) l pairs ->
  for_each body l d = Ok (fold_left set_pair pairs d).
Proof.
  intros HF. revert d.
  induction HF as [|a [k v] r pairs [Hk Hv] HF IH]; intros d; simpl.
  - reflexivity.
  - simpl in Hk, Hv. rewrite Hv. simpl. subst k. apply IH.
Qed.

Lemma Forall2_keys (l : list A) (pairs : list (string * V)) :
  Forall2 (fun a kv => fst kv = key a /\ val a = Ok (snd kv)) l pairs ->
  map fst pairs = map key l.
Proof.
  induction 1 as [|a kv r pairs [Hk _] HF IH]; simpl; congruence.
Qed.

Lemma Forall2_total (g : A -> V) (l : list A) :
  (forall a, In a l -> val a = Ok (g a)) ->
  Forall2 (fun a kv => fst kv = key a /\ val a = Ok (snd kv)) l
          (map (fun a => (key a, g a)) l).
Proof.
  induction l as [|a r IH]; intros H; simpl; constructor.
  - split; [reflexivity|]. apply H. now left.
  - apply IH. intros x Hx. apply H. now right.
Qed.


(** The loop stops at the first element whose value raises. *)
Lemma for_each_set_raise (l : list A) (d : t V) :
  (exists a, In a l /\ forall v, val a <> Ok v) ->
  (forall a, In a l -> val a <> OutOfFuel) ->
  exists a e, In a l /\ val a = Raise e /\ for_each body l d = Raise e.
Proof.
  revert d. induction l as [|a r IH]; intros d (x & Hx & Hbad) Hfuel.
  - destruct Hx.
  - simpl. destruct (val a) as [v|e|] eqn:E.
    + simpl. destruct Hx as [<-|Hx]; [now elim (Hbad v)|].
      destruct (IH (set (key a) v d)) as (y & e & Hy & Hv & Hr).
      * now exists x.
      * intros z Hz. apply Hfuel. now right.
      * exists y, e. repeat split; simpl; auto.
    + exists a, e. repeat split; simpl; auto.
    + exfalso. apply (Hfuel a); [now left|assumption].
Qed.
End ForEachSet.

(** Adding defaults under the names that are still free. *)
Lemma get_add_defaults (l : list (string * V)) (d : t V) k :
  get k (fold_left (fun ret kv =>
                      if contains (fst kv) ret then ret
                      else set (fst kv) (snd kv) ret) l d)
  = match get k d with Some v => Some v | None => get k l end.
Proof.
  revert d. induction l as [|[k1 v1] r IH]; intros d; simpl.
  - now destruct (get k d).
  - rewrite IH. unfold contains.
    destruct (get k1 d) as [v|] eqn:E1.
    + destruct (get k d) eqn:E; [reflexivity|].
      destruct (String.eqb_spec k k1) as [->|]; [congruence|reflexivity].
    + rewrite get_set.
      destruct (String.eqb_spec k k1) as [->|]; [now rewrite E1|].
      reflexivity.
Qed.

Lemma keys_pop_all (excl : list string) (d : t V) :
  keys (fold_left (fun ret key => pop key ret) excl d)
  = filter (fun k => negb (mem k excl)) (keys d).
Proof.
  revert d. induction excl as [|e r IH]; intros d; simpl.
  - symmetry. apply forallb_filter_id, forallb_forall. reflexivity.
  - rewrite IH, keys_pop, filter_twice. apply filter_ext. intros x.
    rewrite (String.eqb_sym e x).
    destruct (String.eqb x e); simpl; [now rewrite andb_false_r|].
    now rewrite andb_true_r.
Qed.

Lemma get_pop_all (excl : list string) (d : t V) k :
  get k (fold_left (fun ret key => pop key ret) excl d)
  = if mem k excl then None else get k d.
Proof.
  revert d. induction excl as [|e r IH]; intros d; simpl; [reflexivity|].
  rewrite IH, get_pop. destruct (String.eqb k e); simpl; [|reflexivity].
  now destruct (mem k r).
Qed.
End Loops.

(** ** The field set of an object *)

Section FieldSetFacts.
Import SortedDict SortedDictFacts.
Variable w : world.

Lemma initialize_ok (parent : serializer) (f : field) (st : list oid) :
  stack (attrs parent) = Some st ->
  initialize parent f
  = Ok (initialized st (nested (opts (attrs parent))) f).
Proof.
  intros H. destruct f; simpl; [reflexivity|]. now rewrite H.
Qed.

Lemma public_attrs_In (d : list (string * value)) k :
  In k (public_attrs d)
  <-> In k (map fst d) /\ String.prefix "_" k = false.
Proof.
  unfold public_attrs. split.
  - intros H.
    eapply Permutation_in in H; [|apply Permutation_sym, py_sorted_perm].
    apply filter_In in H. destruct H as [H1 H2]. split; [assumption|].
    now apply negb_true_iff.
  - intros [H1 H2]. eapply Permutation_in; [apply py_sorted_perm|].
    apply filter_In. split; [assumption|]. now apply negb_true_iff.
Qed.

Lemma public_attrs_NoDup (d : list (string * value)) :
  NoDup (map fst d) -> NoDup (public_attrs d).
Proof.
  intros H. unfold public_attrs.
  eapply Permutation_NoDup; [apply py_sorted_perm|].
  now apply NoDup_filter.
Qed.

(** The default fields of an [ObjectSerializer] as one run of
    assignments. *)
Lemma object_default_fields_eq (self : serializer) (o : oid)
    (d : list (string * value)) (n : nested_opt) (st : list oid) :
  s_kind (attrs self) = ObjectSerializer ->
  nth_error (heap w) o = Some d ->
  stack (attrs self) = Some st ->
  default_fields w self (Some o) n
  = Ok (fold_left (fun ret kv => set (fst kv) (snd kv) ret)
          (map (fun a =>
                  (a, initialized st (nested (opts (attrs self)))
                        (if truthy n then as_field (new_same_class self)
                         else Leaf None)))
               (public_attrs d))
          []).
Proof.
  intros Hk Hd Hst. unfold default_fields, __dict__. rewrite Hk, Hd. simpl.
  apply (for_each_set_ok (fun a : string => a)
           (fun _ : string =>
              initialize self
                (if truthy n then as_field (new_same_class self)
                 else Leaf None))).
  apply Forall2_total. intros a _. now apply initialize_ok.
Qed.

(** C10. The default fields of an [ObjectSerializer] for an object: one
    field for each name of the instance dictionary that does not start
    with an underscore, and no other; the names are in the order of
    [sorted], that is, ascending by character code, whatever their order in
    the dictionary. *)
Theorem object_default_fields_sorted (self : serializer) (o : oid)
    (d : list (string * value)) (n : nested_opt) (st : list oid) :
  s_kind (attrs self) = ObjectSerializer ->
  nth_error (heap w) o = Some d ->
  NoDup (map fst d) ->
  stack (attrs self) = Some st ->
  exists fs,
    default_fields w self (Some o) n = Ok fs
    /\ keys fs = public_attrs d
    /\ Sorted (fun a b => String.leb a b = true) (keys fs)
    /\ NoDup (keys fs)
    /\ (forall k, In k (keys fs)
                  <-> In k (map fst d) /\ String.prefix "_" k = false).
Proof.
  intros Hk Hd Hnd Hst. eexists. split.
  - eapply object_default_fields_eq; eassumption.
  - assert (keys (fold_left (fun ret kv => set (fst kv) (snd kv) ret)
              (map (fun a =>
                      (a, initialized st (nested (opts (attrs self)))
                            (if truthy n
                             then as_field (new_same_class self)
                             else Leaf None)))
                   (public_attrs d))
              []) = public_attrs d) as E.
    { rewrite keys_set_seq. simpl. rewrite map_map. simpl. rewrite map_id.
      rewrite uniq_NoDup_id by now apply public_attrs_NoDup.
      apply forallb_filter_id, forallb_forall. reflexivity. }
    rewrite E. split; [reflexivity|]. split; [|split].
    + apply py_sorted_ok, String.leb_total.
    + now apply public_attrs_NoDup.
    + apply public_attrs_In.
Qed.

Lemma keys_remove_excluded (excl : list string) (d : sorted_dict field) :
  keys (remove_excluded excl d)
  = filter (fun k => negb (mem k excl)) (keys d).
Proof.
  destruct excl as [|e r].
  - simpl. symmetry. apply forallb_filter_id, forallb_forall. reflexivity.
  - apply keys_pop_all.
Qed.

Lemma get_remove_excluded (excl : list string) (d : sorted_dict field) k :
  get k (remove_excluded excl d) = if mem k excl then None else get k d.
Proof.
  destruct excl as [|e r]; [reflexivity|]. apply get_pop_all.
Qed.

(** The allowlist, when every name of it is bound. *)
Lemma use_specified_bound (allow : list string) (merged : sorted_dict field) :
  (forall k, In k allow -> contains k merged = true) ->
  exists ret,
    use_specified allow merged = Ok ret
    /\ keys ret = match allow with [] => keys merged | _ => uniq allow end
    /\ (forall k v, get k ret = Some v -> get k merged = Some v).
Proof.
  intros Hall. destruct allow as [|a0 r0] eqn:Ea.
  - exists merged. simpl. auto.
  - rewrite <- Ea in *.
    set (g := fun k => match get k merged with
                       | Some v => v
                       | None => Leaf None
                       end).
    assert (Forall2 (fun a kv => fst kv = a
                                 /\ getitem a merged = Ok (snd kv))
                    allow (map (fun a => (a, g a)) allow)) as HF.
    { apply (Forall2_total (fun a : string => a)
               (fun a => getitem a merged) g).
      intros a Ha. apply Hall in Ha. unfold contains, getitem, g in *.
      now destruct (get a merged). }
    exists (fold_left (fun d kv => set (fst kv) (snd kv) d)
                      (map (fun a => (a, g a)) allow) []).
    split; [|split].
    + assert (use_specified allow merged
              = for_each (fun new key =>
                            v <- getitem key merged ;;
                            Ok (set key v new)) allow []) as ->
          by (rewrite Ea; reflexivity).
      exact (for_each_set_ok (fun a : string => a)
               (fun a => getitem a merged) [] HF).
    + rewrite keys_set_seq_nil, map_map. simpl. rewrite map_id, Ea.
      reflexivity.
    + intros k v H. apply get_set_seq in H. destruct H as [H|H];
        [|discriminate].
      apply in_map_iff in H. destruct H as (a & [= <- <-] & Ha).
      apply Hall in Ha. unfold contains, g in *.
      now destruct (get a merged).
Qed.

(** C5. With the merged mapping of declared and default fields at hand
    and every allowlisted name bound in it, [get_fields] returns: when
    [Options.fields] is not empty, exactly the allowlisted names in the
    order of the allowlist (each at its first occurrence), however many
    fields were merged; then every name of [Options.exclude] is removed,
    absent ones without effect, and the rest keep their order; each name
    left has the field it had in the merged mapping. *)
Theorem get_fields_allowlist_then_exclude (self : serializer)
    (obj : option oid) (n : nested_opt) (merged : sorted_dict field) :
  merged_fields w self obj n = Ok merged ->
  (forall k, In k (fields (opts (attrs self))) -> contains k merged = true) ->
  exists ret,
    get_fields w self obj n = Ok ret
    /\ keys ret
       = filter (fun k => negb (mem k (exclude (opts (attrs self)))))
                (match fields (opts (attrs self)) with
                 | [] => keys merged
                 | allow => uniq allow
                 end)
    /\ (fields (opts (attrs self)) <> [] ->
        NoDup (fields (opts (attrs self))) ->
        keys ret
        = filter (fun k => negb (mem k (exclude (opts (attrs self)))))
                 (fields (opts (attrs self))))
    /\ (forall k, In k (keys ret) -> get k ret = get k merged).
Proof.
  intros Hm Hall.
  destruct (use_specified_bound _ merged Hall) as (sel & Hsel & Hkeys & Hget).
  exists (remove_excluded (exclude (opts (attrs self))) sel).
  assert (keys (remove_excluded (exclude (opts (attrs self))) sel)
          = filter (fun k => negb (mem k (exclude (opts (attrs self)))))
                   (match fields (opts (attrs self)) with
                    | [] => keys merged
                    | _ :: _ => uniq (fields (opts (attrs self)))
                    end)) as Hk.
  { rewrite keys_remove_excluded, Hkeys. reflexivity. }
  split; [|split; [|split]].
  - unfold get_fields. rewrite Hm. simpl. rewrite Hsel. reflexivity.
  - rewrite Hk. now destruct (fields (opts (attrs self))).
  - intros Hne Hnd. rewrite Hk.
    destruct (fields (opts (attrs self))) as [|a r] eqn:E; [congruence|].
    now rewrite uniq_NoDup_id.
  - intros k Hin.
    destruct (get k (remove_excluded (exclude (opts (attrs self))) sel))
      as [v|] eqn:E.
    + rewrite get_remove_excluded in E.
      destruct (mem k (exclude (opts (attrs self)))); [discriminate|].
      symmetry. now apply Hget.
    + apply get_None in E. contradiction.
Qed.

(** C6. With the merged mapping at hand, an allowlisted name that is not
    bound in it makes [get_fields] raise [KeyError] for such a name; no
    field set is returned. *)
Theorem get_fields_unknown_allowlisted (self : serializer)
    (obj : option oid) (n : nested_opt) (merged : sorted_dict field) :
  merged_fields w self obj n = Ok merged ->
  (exists k, In k (fields (opts (attrs self)))
             /\ contains k merged = false) ->
  exists k,
    In k (fields (opts (attrs self)))
    /\ contains k merged = false
    /\ get_fields w self obj n = Raise (KeyError k).
Proof.
  intros Hm (k0 & Hin0 & Hc0).
  destruct (for_each_set_raise (fun a : string => a)
              (fun a => getitem a merged)
              (fields (opts (attrs self))) [])
    as (k & e & Hin & Hv & Hr).
  - exists k0. split; [assumption|]. intros v. unfold getitem, contains in *.
    destruct (get k0 merged); [discriminate|]. discriminate.
  - intros a _. unfold getitem. now destruct (get a merged).
  - exists k. unfold getitem in Hv. unfold contains.
    destruct (get k merged) eqn:E; [discriminate|].
    injection Hv as <-. split; [assumption|]. split; [reflexivity|].
    unfold get_fields. rewrite Hm. simpl.
    assert (use_specified (fields (opts (attrs self))) merged
            = Raise (KeyError k)) as ->; [|reflexivity].
    unfold use_specified.
    destruct (fields (opts (attrs self))); [destruct Hin|]. exact Hr.
Qed.

End FieldSetFacts.

(** The five-attribute object, with the allowlist [("id", "name")]. *)
Lemma get_fields_allowlist_then_exclude_witness :
  let self := listing_serializer ["id"; "name"] ["secret"] [] in
  exists merged,
    merged_fields person_world self (Some 0) (NBool false) = Ok merged
    /\ (forall k, In k (fields (opts (attrs self))) ->
                  SortedDict.contains k merged = true)
    /\ exists ret, get_fields person_world self (Some 0) (NBool false) = Ok ret
                   /\ SortedDict.keys ret = ["id"; "name"].
Proof.
  intros self.
  assert (forall k, In k (fields (opts (attrs self))) ->
                    SortedDict.contains k
                      [("email", Leaf None); ("id", Leaf None);
                       ("name", Leaf None); ("secret", Leaf None);
                       ("tags", Leaf None)] = true) as Hall.
  { simpl. intros k [<-|[<-|[]]]; reflexivity. }
  eexists. split; [reflexivity|]. split; [exact Hall|].
  destruct (@get_fields_allowlist_then_exclude person_world self (Some 0)
              (NBool false) _ eq_refl Hall) as (ret & Hr & Hk & _).
  exists ret. split; [exact Hr|]. rewrite Hk. reflexivity.
Defined.

(** An allowlist that names an attribute the object does not have. *)
Lemma get_fields_unknown_allowlisted_witness :
  let self := listing_serializer ["id"; "age"] [] [] in
  exists merged,
    merged_fields person_world self (Some 0) (NBool false) = Ok merged
    /\ (exists k, In k (fields (opts (attrs self)))
                  /\ SortedDict.contains k merged = false)
    /\ exists k, get_fields person_world self (Some 0) (NBool false)
                 = Raise (KeyError k).
Proof.
  intros self.
  assert (exists k, In k (fields (opts (attrs self)))
                    /\ SortedDict.contains k
                         [("email", Leaf None); ("id", Leaf None);
                          ("name", Leaf None); ("secret", Leaf None);
                          ("tags", Leaf None)] = false) as Hex.
  { exists "age". split; [simpl; tauto|reflexivity]. }
  eexists. split; [reflexivity|]. split; [exact Hex|].
  destruct (@get_fields_unknown_allowlisted person_world self (Some 0)
              (NBool false) _ eq_refl Hex) as (k & _ & _ & Hr).
  exists k. exact Hr.
Defined.


(** The default fields of the five-attribute object. *)
Lemma object_default_fields_sorted_witness :
  let self := with_attrs (set_stack [] (attrs (object_serializer (NBool true))))
                         (object_serializer (NBool true)) in
  exists fs,
    default_fields person_world self (Some 0) (NBool true) = Ok fs
    /\ SortedDict.keys fs = ["email"; "id"; "name"; "secret"; "tags"].
Proof.
  intros self.
  assert (NoDup (map fst [("name", VScalar (SStr "a"));
                          ("id", VScalar (SInt 1));
                          ("secret", VScalar (SStr "s")); ("tags", VList []);
                          ("email", VScalar SNone);
                          ("_cache", VScalar SNone)])) as Hnd.
  { simpl. repeat constructor; simpl; intuition discriminate. }
  destruct (@object_default_fields_sorted person_world self 0 _ (NBool true)
              [] eq_refl eq_refl Hnd eq_refl) as (fs & Hfs & Hk & _).
  exists fs. split; [exact Hfs|]. rewrite Hk. reflexivity.
Defined.

(** ** Serializers used as fields *)

Lemma field_to_native_Ser (w : world)
    (rec : serializer -> value -> result (prim * serializer))
    (a : attributes) (b fs : list (string * field)) (o : oid)
    (name : string) :
  field_to_native w rec (Ser a b fs) o name
  = if is_root (opts a)
    then '(p, _) <- rec (mkSerializer (entered a o name) b fs) (VRef o) ;; Ok p
    else v <- getattr w o name ;;
         '(p, _) <- rec (mkSerializer (entered a o name) b fs) v ;; Ok p.
Proof.
  unfold field_to_native, entered, BaseSerializer_field_to_native,
    ModelSerializer_field_to_native.
  destruct (s_kind a); reflexivity.
Qed.

Lemma entered_object (a : attributes) (o : oid) (name : string) :
  s_kind a = ObjectSerializer -> entered a o name = set_obj o name a.
Proof. unfold entered. now intros ->. Qed.

(** ** Root fields *)

Lemma set_opts_same (a : attributes) : set_opts (opts a) a = a.
Proof. now destruct a. Qed.

Lemma route_no_root (l : list (string * field)) done kw h :
  (forall kv, In kv l -> is_root_field (snd kv) = false) ->
  fold_left route_step l (done, kw, h) = (done ++ l, kw, h).
Proof.
  revert done. induction l as [|[k f] r IH]; intros done H; cbn [fold_left].
  - now rewrite app_nil_r.
  - assert (is_root_field f = false) as Hf by (apply (H (k, f)); now left).
    assert (route_step (done, kw, h) (k, f) = (done ++ [(k, f)], kw, h)) as ->.
    { destruct f as [l|a b fs]; simpl in *; [reflexivity|]. now rewrite Hf. }
    rewrite IH, <- app_assoc; [reflexivity|].
    intros kv Hin. apply H. now right.
Qed.

Lemma route_after_root (l : list (string * field)) done :
  fold_left route_step l (done, no_overrides, true)
  = (done ++ l, no_overrides, true).
Proof.
  revert done. induction l as [|[k f] r IH]; intros done; cbn [fold_left].
  - now rewrite app_nil_r.
  - assert (route_step (done, no_overrides, true) (k, f)
            = (done ++ [(k, f)], no_overrides, true)) as ->.
    { destruct f as [l|a b fs]; simpl; [reflexivity|].
      destruct (is_root (opts a)); [|reflexivity].
      unfold apply_overrides. simpl. now rewrite set_opts_same. }
    now rewrite IH, <- app_assoc.
Qed.

Lemma route_first_root (pre post : list (string * field)) name a b fs kw :
  (forall kv, In kv pre -> is_root_field (snd kv) = false) ->
  is_root (opts a) = true ->
  route_to_root_fields (pre ++ (name, Ser a b fs) :: post) kw
  = (pre ++ (name, Ser (set_opts (apply_overrides kw (opts a)) a) b fs) :: post,
     no_overrides, true).
Proof.
  intros Hpre Ha. unfold route_to_root_fields, SortedDict.items.
  rewrite fold_left_app, route_no_root by assumption. cbn [fold_left app].
  assert (route_step (pre, kw, false) (name, Ser a b fs)
          = (pre ++ [(name, Ser (set_opts (apply_overrides kw (opts a)) a) b fs)],
             no_overrides, true)) as -> by (simpl; now rewrite Ha).
  rewrite route_after_root, <- app_assoc. reflexivity.
Qed.

(** C8, as stated, fails: the mapping of the enclosing serializer holds the
    output of its root field under the key of that field; it is not that
    output. *)
Lemma root_field_output_is_nested :
  let inner := PMap [("email", PScalar SNone); ("id", PScalar (SInt 1));
                     ("name", PScalar (SStr "a"));
                     ("secret", PScalar (SStr "s"));
                     ("tags", PFlat (VList []))] in
  let field := mkSerializer
                 (set_obj 0 "fields"
                    (initialized_attrs [0] (NBool false) (attrs root_serializer)))
                 [] [] in
  (exists self', to_native person_world 4 field (VRef 0) = Ok (inner, self'))
  /\ (exists self', serialize person_world 5 envelope "python" (VRef 0)
                              no_overrides
                    = Ok (Python (PMap [("fields", inner)]), self'))
  /\ PMap [("fields", inner)] <> inner.
Proof.
  split; [eexists; reflexivity|]. split; [eexists; reflexivity|].
  discriminate.
Qed.

(** C8, amended. A field whose options have [is_root] set converts the
    container object itself: its [field_to_native] is its [to_native] of the
    object, no attribute is extracted. The enclosing serializer stores that
    output under the key of the field, as it stores the output of any field:
    with the root field as its only field, its mapping has exactly one
    entry, the key of the field with the field's own [to_native] output as
    value. [serialize] hands the [fields], [exclude] and [nested] overrides
    to the first root field and leaves the options of the instance as they
    were. *)
Theorem root_field_converts_container (w : world) (self : serializer)
    (name : string) (a : attributes) (b fs : list (string * field)) :
  is_root (opts a) = true ->
  (forall rec o fname,
      field_to_native w rec (Ser a b fs) o fname
      = '(p, _) <- rec (mkSerializer (entered a o fname) b fs) (VRef o) ;; Ok p)
  /\ (forall fuel o st p child',
         s_kind (attrs self) = BaseSerializer ->
         s_fields self = [(name, Ser a b fs)] ->
         fields (opts (attrs self)) = [] ->
         exclude (opts (attrs self)) = [] ->
         stack (attrs self) = Some st ->
         in_stack w o st = false ->
         to_native w fuel
           (mkSerializer
              (entered
                 (initialized_attrs (st ++ [o]) (nested (opts (attrs self))) a)
                 o name)
              b fs)
           (VRef o) = Ok (p, child') ->
         to_native w (S fuel) self (VRef o)
         = Ok (PMap [(convert_field_key name (Ser a b fs), p)],
               with_attrs (set_stack (st ++ [o]) (attrs self)) self))
  /\ (forall pre post kw,
         s_fields self = pre ++ (name, Ser a b fs) :: post ->
         (forall kv, In kv pre -> is_root_field (snd kv) = false) ->
         s_fields (prepare self kw)
         = pre ++ (name, Ser (set_opts (apply_overrides kw (opts a)) a) b fs)
               :: post
         /\ opts (attrs (prepare self kw)) = opts (attrs self)).
Proof.
  intros Hroot. split; [|split].
  - intros rec o fname. now rewrite field_to_native_Ser, Hroot.
  - intros fuel o st p child' Hk Hf Hfl Hex Hst Hin Hchild.
    simpl. unfold convert_object, determine_recursion.
    rewrite Hst, Hin. simpl.
    unfold get_fields, merged_fields, default_fields. simpl.
    rewrite Hf, Hk, Hfl, Hex. simpl.
    unfold convert_fields. cbn [for_each SortedDict.items fst snd].
    rewrite field_to_native_Ser.
    assert (is_root (opts (initialized_attrs (st ++ [o])
                             (nested (opts (attrs self))) a)) = true) as ->
        by exact Hroot.
    rewrite Hchild. reflexivity.
  - intros pre post kw Hf Hpre. unfold prepare.
    rewrite Hf, route_first_root by assumption. simpl. split; reflexivity.
Qed.

Lemma root_field_converts_container_witness :
  is_root (opts (attrs root_serializer)) = true
  /\ s_fields (prepare envelope (mkOverrides (Some ["id"]) None None))
     = [("fields",
         Ser (set_opts (set_fields ["id"] (opts (attrs root_serializer)))
                       (attrs root_serializer)) [] [])]
  /\ opts (attrs (prepare envelope (mkOverrides (Some ["id"]) None None)))
     = opts (attrs envelope).
Proof.
  split; [reflexivity|].
  destruct (@root_field_converts_container person_world envelope "fields"
              (attrs root_serializer) [] [] eq_refl) as (_ & _ & H).
  destruct (H [] [] (mkOverrides (Some ["id"]) None None) eq_refl) as [H1 H2].
  - intros kv [].
  - split; [exact H1|exact H2].
Defined.

(** ** The visited stack *)

Section StackFacts.
Variable w : world.

Lemma set_stack_same (a : attributes) (st : list oid) :
  stack a = Some st -> set_stack st a = a.
Proof. destruct a. simpl. now intros ->. Qed.

Lemma with_attrs_same (self : serializer) : with_attrs (attrs self) self = self.
Proof. now destruct self. Qed.

Lemma stack_extended_refl (self : serializer) : stack_extended self self.
Proof.
  unfold stack_extended. destruct (stack (attrs self)) as [st|] eqn:E;
    [|reflexivity].
  exists []. now rewrite app_nil_r, set_stack_same, with_attrs_same.
Qed.

Lemma stack_extended_trans (s1 s2 s3 : serializer) :
  stack_extended s1 s2 -> stack_extended s2 s3 -> stack_extended s1 s3.
Proof.
  unfold stack_extended. destruct (stack (attrs s1)) as [st|] eqn:E.
  - intros [e1 ->]. simpl. intros [e2 ->]. exists (e1 ++ e2).
    unfold with_attrs, set_stack. simpl. now rewrite app_assoc.
  - intros ->. now rewrite E.
Qed.

Lemma stack_extended_push (self : serializer) (st : list oid) (o : oid) :
  stack (attrs self) = Some st ->
  stack_extended self (with_attrs (set_stack (st ++ [o]) (attrs self)) self).
Proof. intros H. unfold stack_extended. rewrite H. now exists [o]. Qed.

Lemma in_stack_app (o : oid) (st ext : list oid) :
  in_stack w o (st ++ ext) = in_stack w o st || in_stack w o ext.
Proof. apply existsb_app. Qed.

Lemma in_stack_pushed (o : oid) (st : list oid) :
  in_stack w o (st ++ [o]) = true.
Proof.
  rewrite in_stack_app. unfold in_stack at 2. simpl.
  rewrite Nat.eqb_refl. simpl. apply orb_true_r.
Qed.

Section Rec.
Variable rec : serializer -> value -> result (prim * serializer).
Hypothesis rec_extends :
  forall s x p s', rec s x = Ok (p, s') -> stack_extended s s'.

Lemma convert_items_extends (xs : list value) (self self' : serializer)
    (ps : list prim) :
  convert_items rec self xs = Ok (ps, self') -> stack_extended self self'.
Proof.
  unfold convert_items.
  enough (forall acc s,
             for_each (fun acc x =>
                         '(p, self') <- rec (snd acc) x ;;
                         Ok (fst acc ++ [p], self')) xs (acc, s)
             = Ok (ps, self') -> stack_extended s self') as H
      by apply H.
  induction xs as [|x r IH]; intros acc s; simpl.
  - intros [= _ <-]. apply stack_extended_refl.
  - intros H. apply bind_Ok in H. destruct H as ([acc1 s1] & H1 & H2).
    apply bind_Ok in H1. destruct H1 as ([p1 s1'] & Hr & [= <- <-]).
    apply rec_extends in Hr. apply IH in H2.
    eapply stack_extended_trans; eassumption.
Qed.

Lemma convert_object_result (self self' : serializer) (o : oid)
    (p : prim) :
  convert_object w rec self o = Ok (p, self') ->
  exists st, stack (attrs self) = Some st
             /\ ((in_stack w o st = true /\ self' = self)
                 \/ self' = with_attrs (set_stack (st ++ [o]) (attrs self))
                                       self).
Proof.
  unfold convert_object, determine_recursion.
  destruct (stack (attrs self)) as [st|]; [|discriminate].
  intros H. exists st. split; [reflexivity|].
  destruct (in_stack w o st && negb (is_root (opts (attrs self)))) eqn:E;
    simpl in H.
  - left. apply andb_true_iff in E. destruct E as [E _].
    apply bind_Ok in H. destruct H as (q & _ & [= _ <-]). now split.
  - right. apply bind_Ok in H. destruct H as (fl & _ & H).
    apply bind_Ok in H. destruct H as (ret & _ & [= _ <-]). reflexivity.
Qed.

Lemma to_native_body_extends (self self' : serializer) (v : value)
    (p : prim) :
  to_native_body w rec self v = Ok (p, self') -> stack_extended self self'.
Proof.
  destruct v as [s|kvs|xs|o]; simpl.
  - intros [= _ <-]. apply stack_extended_refl.
  - intros H. apply bind_Ok in H. destruct H as ([ps s1] & H & [= _ <-]).
    now apply convert_items_extends in H.
  - intros H. apply bind_Ok in H. destruct H as ([ps s1] & H & [= _ <-]).
    now apply convert_items_extends in H.
  - intros H. apply convert_object_result in H.
    destruct H as (st & Hst & [[_ ->]| ->]).
    + apply stack_extended_refl.
    + now apply stack_extended_push.
Qed.
End Rec.

Lemma to_native_extends (fuel : nat) (self self' : serializer) (v : value)
    (p : prim) :
  to_native w fuel self v = Ok (p, self') -> stack_extended self self'.
Proof.
  revert self self' v p. induction fuel as [|fuel IH]; intros self self' v p.
  - discriminate.
  - simpl. apply to_native_body_extends.
    intros s x q s' H. exact (IH s s' x q H).
Qed.

(** The branch taken for an object found on the stack of a serializer
    that is not a root. *)
Lemma convert_object_on_stack
    (rec : serializer -> value -> result (prim * serializer))
    (self : serializer) (o : oid) (st : list oid) :
  stack (attrs self) = Some st ->
  is_root (opts (attrs self)) = false ->
  in_stack w o st = true ->
  convert_object w rec self o
  = q <- cycle_fallback w rec self ;; Ok (q, self).
Proof.
  intros Hst Hroot Hin. unfold convert_object, determine_recursion.
  rewrite Hst, Hin, Hroot. reflexivity.
Qed.

(** C9, amended. From one initialization of a serializer to the next,
    conversions only append to its stack: after [to_native] the serializer
    is what it was but for a stack that has grown at its end, so every
    entry stays, and a composite object that was converted is an entry.
    Membership is by identity or [==], not by ancestry. Hence, for a
    serializer whose [is_root] is not set, any later object that is
    identical or equal to an entry, a repeated sibling of a sequence
    included, takes the branch of the cycle fallback. *)
Theorem stack_grows_until_reinitialized (fuel : nat)
    (self self' : serializer) (v : value) (p : prim) (st : list oid) :
  to_native w fuel self v = Ok (p, self') ->
  stack (attrs self) = Some st ->
  exists ext,
    self' = with_attrs (set_stack (st ++ ext) (attrs self)) self
    /\ (forall o, in_stack w o st = true -> in_stack w o (st ++ ext) = true)
    /\ (forall o, v = VRef o -> in_stack w o (st ++ ext) = true)
    /\ (forall o rec,
           is_root (opts (attrs self)) = false ->
           in_stack w o (st ++ ext) = true ->
           convert_object w rec self' o
           = q <- cycle_fallback w rec self' ;; Ok (q, self')).
Proof.
  intros Hn Hst. pose proof (to_native_extends _ _ _ Hn) as He.
  unfold stack_extended in He. rewrite Hst in He. destruct He as [ext ->].
  exists ext. split; [reflexivity|]. split; [|split].
  - intros o Ho. rewrite in_stack_app, Ho. reflexivity.
  - intros o ->. destruct fuel as [|fuel]; [discriminate|]. simpl in Hn.
    apply convert_object_result in Hn.
    destruct Hn as (st0 & Hst0 & [[Hin Heq]|Heq]).
    + rewrite Hst in Hst0. injection Hst0 as <-.
      rewrite in_stack_app, Hin. reflexivity.
    + rewrite Hst in Hst0. injection Hst0 as <-.
      apply (f_equal (fun s => stack (attrs s))) in Heq. simpl in Heq.
      injection Heq as ->. apply in_stack_pushed.
  - intros o rec Hroot Hin.
    apply convert_object_on_stack with (st := st ++ ext);
      [reflexivity|exact Hroot|exact Hin].
Qed.
End StackFacts.

(** C9, as stated, fails: the declared field [c] converts object 2 for the
    first element of the sequence, which leaves 2 on its stack; for the
    second element the field is initialized again with a copy of the stack
    of its parent, 2 is no longer on its stack, and it converts 2 in full a
    second time, where the cycle fallback would have given the flat
    value. *)
Lemma reinitialized_field_converts_again :
  let c := attrs (object_serializer (NBool false)) in
  let first := mkSerializer (set_obj 0 "c" (initialized_attrs [0] (NBool false) c))
                            [] [] in
  let second := mkSerializer
                  (set_obj 1 "c" (initialized_attrs [0; 1] (NBool false) c))
                  [] [] in
  (exists self',
      serialize shared_world 5 holder "python" (VList [VRef 0; VRef 1])
                no_overrides
      = Ok (Python (PSeq [PMap [("c", PMap [("v", PScalar (SInt 1))])];
                          PMap [("c", PMap [("v", PScalar (SInt 1))])]]),
            self'))
  /\ (exists self',
         to_native shared_world 3 first (VRef 2)
         = Ok (PMap [("v", PScalar (SInt 1))], self')
         /\ stack (attrs self') = Some [0; 2])
  /\ (exists self',
         to_native shared_world 3 second (VRef 2)
         = Ok (PMap [("v", PScalar (SInt 1))], self')
         /\ stack (attrs self') = Some [0; 1; 2])
  /\ cycle_fallback shared_world (to_native shared_world 2) second
     = Ok (PFlat (VRef 2)).
Proof.
  repeat split; try (eexists; split; reflexivity); try (eexists; reflexivity).
Qed.

Lemma stack_grows_until_reinitialized_witness :
  let self := mkSerializer
                (set_obj 0 "c"
                   (initialized_attrs [0] (NBool false)
                      (attrs (object_serializer (NBool false)))))
                [] [] in
  stack (attrs self) = Some [0]
  /\ exists self' ext,
      to_native shared_world 3 self (VList [VRef 2; VRef 2])
      = Ok (PSeq [PMap [("v", PScalar (SInt 1))]; PFlat (VRef 2)], self')
      /\ self' = with_attrs (set_stack ([0] ++ ext) (attrs self)) self.
Proof.
  intros self. split; [reflexivity|].
  destruct (@stack_grows_until_reinitialized shared_world 3 self _
              (VList [VRef 2; VRef 2]) _ [0] eq_refl eq_refl)
    as (ext & H & _).
  eexists _, ext. split; [reflexivity|exact H].
Defined.

(** ** Termination of the walk *)

Section Counting.
Variable A : Type.

Lemma filter_length_le (f g : A -> bool) (l : list A) :
  (forall x, f x = true -> g x = true) ->
  List.length (filter f l) <= List.length (filter g l).
Proof.
  intros H. induction l as [|x r IH]; simpl; [lia|].
  destruct (f x) eqn:F.
  - rewrite (H x F). simpl. lia.
  - destruct (g x); simpl; lia.
Qed.

Lemma filter_length_lt (f g : A -> bool) (l : list A) (y : A) :
  (forall x, f x = true -> g x = true) ->
  In y l -> f y = false -> g y = true ->
  List.length (filter f l) < List.length (filter g l).
Proof.
  intros H. induction l as [|x r IH]; simpl; [tauto|].
  intros [->|Hin] Fy Gy.
  - rewrite Fy, Gy. simpl.
    pose proof (filter_length_le f g r H). lia.
  - specialize (IH Hin Fy Gy). destruct (f x) eqn:F.
    + rewrite (H x F). simpl. lia.
    + destruct (g x); simpl; lia.
Qed.

Lemma for_each_all_ok (S : Type) (body : S -> A -> result S) (l : list A)
    (s : S) :
  (forall s a, In a l -> exists s', body s a = Ok s') ->
  exists s', for_each body l s = Ok s'.
Proof.
  revert s. induction l as [|a r IH]; intros s H; simpl.
  - now exists s.
  - destruct (H s a) as [s1 H1]; [now left|]. rewrite H1. simpl.
    apply IH. intros s2 x Hx. apply H. now right.
Qed.
End Counting.

Lemma list_max_ge (l : list nat) (x : nat) : In x l -> x <= list_max l.
Proof.
  intros H. assert (Forall (fun k => k <= list_max l) l) as HF
      by now apply list_max_le.
  rewrite Forall_forall in HF. now apply HF.
Qed.

Section DictMembers.
Import SortedDict SortedDictFacts.
Variable V : Type.

Lemma In_set (k : string) (v : V) (d : t V) kv :
  In kv (set k v d) -> kv = (k, v) \/ In kv d.
Proof.
  induction d as [|[k' v'] r IH]; simpl.
  - intros [<-|[]]. now left.
  - destruct (String.eqb_spec k k') as [->|Hne]; simpl.
    + intros [<-|H]; tauto.
    + intros [<-|H]; [tauto|]. apply IH in H. tauto.
Qed.

Lemma In_set_seq (l : list (string * V)) (d : t V) kv :
  In kv (fold_left (fun d kv => set (fst kv) (snd kv) d) l d) ->
  In kv l \/ In kv d.
Proof.
  revert d. induction l as [|[k v] r IH]; intros d; simpl; [tauto|].
  intros H. apply IH in H. destruct H as [H|H]; [tauto|].
  apply In_set in H. destruct H as [->|H]; tauto.
Qed.

Lemma In_add_defaults (l : list (string * V)) (d : t V) kv :
  In kv (fold_left (fun ret kv => if contains (fst kv) ret then ret
                                  else set (fst kv) (snd kv) ret) l d) ->
  In kv l \/ In kv d.
Proof.
  revert d. induction l as [|[k v] r IH]; intros d; simpl; [tauto|].
  intros H. apply IH in H. destruct H as [H|H]; [tauto|].
  destruct (contains k d); [tauto|].
  apply In_set in H. destruct H as [->|H]; tauto.
Qed.

Lemma get_set_seq_key (l : list (string * V)) (k : string) :
  In k (map fst l) ->
  exists v, get k (fold_left (fun d kv => set (fst kv) (snd kv) d) l [])
            = Some v
            /\ In (k, v) l.
Proof.
  intros Hin.
  destruct (get k (fold_left (fun d kv => set (fst kv) (snd kv) d) l []))
    as [v|] eqn:E.
  - exists v. split; [reflexivity|]. apply get_set_seq in E.
    destruct E as [E|E]; [assumption|discriminate].
  - apply get_None in E. rewrite keys_set_seq_nil in E. exfalso. apply E.
    clear E. induction (map fst l) as [|y r IH]; simpl in *; [tauto|].
    destruct Hin as [->|Hin]; [now left|].
    destruct (String.eqb_spec k y) as [->|Hne]; [now left|].
    right. apply filter_In. split; [now apply IH|].
    destruct (String.eqb_spec k y); [congruence|reflexivity].
Qed.
End DictMembers.

(** A serializer field that is not a root converts the attribute of its
    name. *)
Lemma field_to_native_nested (w : world)
    (rec : serializer -> value -> result (prim * serializer))
    (a : attributes) (b fs : list (string * field)) (o : oid) (name : string)
    (v : value) :
  is_root (opts a) = false ->
  getattr w o name = Ok v ->
  field_to_native w rec (Ser a b fs) o name
  = '(p, _) <- rec (mkSerializer (entered a o name) b fs) v ;; Ok p.
Proof. intros H1 H2. now rewrite field_to_native_Ser, H1, H2. Qed.

Section Termination.
Import SortedDict SortedDictFacts.
Variable w : world.
Hypothesis Hclosed : heap_closed w = true.

Lemma attr_closed (o : oid) (d : list (string * value)) k v :
  nth_error (heap w) o = Some d -> In (k, v) d ->
  value_closed (List.length (heap w)) v = true
  /\ vheight v <= heap_height w.
Proof.
  intros Hd Hin. apply nth_error_In in Hd. split.
  - pose proof Hclosed as Hc. unfold heap_closed in Hc.
    rewrite forallb_forall in Hc. specialize (Hc _ Hd).
    rewrite forallb_forall in Hc. exact (Hc _ Hin).
  - unfold heap_height.
    transitivity (list_max (map (fun kv => vheight (snd kv)) d)).
    + apply list_max_ge, in_map_iff. exists (k, v). now split.
    + apply list_max_ge, in_map_iff. exists d. now split.
Qed.

Lemma public_attr_value (d : list (string * value)) (a : string) :
  In a (public_attrs d) -> exists v, get a d = Some v /\ In (a, v) d.
Proof.
  intros H. apply public_attrs_In in H. destruct H as [H _].
  destruct (get a d) as [v|] eqn:E.
  - exists v. split; [reflexivity|]. now apply get_In.
  - apply get_None in E. contradiction.
Qed.

Lemma getattr_public (o : oid) (d : list (string * value)) (a : string) :
  nth_error (heap w) o = Some d -> In a (public_attrs d) ->
  exists v, getattr w o a = Ok v /\ In (a, v) d.
Proof.
  intros Hd Ha. destruct (public_attr_value _ _ Ha) as (v & Hg & Hin).
  exists v. split; [|assumption].
  unfold getattr, __dict__. rewrite Hd. simpl. now rewrite Hg.
Qed.

Lemma not_in_stack (o : oid) (st : list oid) :
  in_stack w o st = false -> existsb (Nat.eqb o) st = false.
Proof.
  unfold in_stack. induction st as [|e r IH]; simpl; [reflexivity|].
  intros H. apply orb_false_iff in H. destruct H as [H1 H2].
  apply orb_false_iff in H1. destruct H1 as [H1 _].
  now rewrite H1, IH.
Qed.

Lemma unvisited_app (st ext : list oid) :
  List.length (unvisited w (st ++ ext)) <= List.length (unvisited w st).
Proof.
  apply filter_length_le. intros x H. apply negb_true_iff in H.
  rewrite existsb_app in H. apply orb_false_iff in H.
  apply negb_true_iff. tauto.
Qed.

Lemma unvisited_push (st : list oid) (o : oid) :
  o < List.length (heap w) -> existsb (Nat.eqb o) st = false ->
  List.length (unvisited w (st ++ [o])) < List.length (unvisited w st).
Proof.
  intros Ho Hst. apply filter_length_lt with (y := o).
  - intros x H. apply negb_true_iff in H.
    rewrite existsb_app in H. apply orb_false_iff in H.
    apply negb_true_iff. tauto.
  - apply in_seq. lia.
  - rewrite existsb_app. simpl. rewrite Nat.eqb_refl.
    now rewrite orb_true_r.
  - now rewrite Hst.
Qed.

Lemma plain_with_stack (self : serializer) (st : list oid) :
  plain self -> plain (with_attrs (set_stack st (attrs self)) self).
Proof. unfold plain. simpl. tauto. Qed.

Lemma converting_with_stack (self : serializer) (st : list oid) :
  converting w self ->
  converting w (with_attrs (set_stack st (attrs self)) self).
Proof. unfold converting. simpl. tauto. Qed.

Lemma plain_child (self : serializer) (st : list oid) (n : nested_opt)
    (o : oid) (a : string) :
  plain self ->
  plain (mkSerializer
           (set_obj o a (initialized_attrs st n (attrs (new_same_class self))))
           (base_fields self) (base_fields self)).
Proof.
  unfold plain. intros (H1 & H2 & H3 & H4 & H5 & H6 & H7 & H8 & H9).
  simpl. unfold _get_option, kwargs_get. simpl. tauto.
Qed.

(** The field set of a plain serializer with a stack, for an object of the
    heap: the public attributes, each with the same field. *)
Lemma plain_get_fields (self : serializer) (o : oid)
    (d : list (string * value)) (n : nested_opt) (st : list oid) :
  plain self ->
  stack (attrs self) = Some st ->
  nth_error (heap w) o = Some d ->
  let f0 := initialized st (nested (opts (attrs self)))
              (if truthy n then as_field (new_same_class self)
               else Leaf None) in
  exists fl,
    get_fields w self (Some o) n = Ok fl
    /\ (forall a f, In (a, f) fl -> In a (public_attrs d) /\ f = f0)
    /\ (forall a, In a (public_attrs d) -> get a fl = Some f0).
Proof.
  intros (Hk & _ & Hf & Hfl & Hex & _) Hst Hd f0.
  unfold get_fields, merged_fields. rewrite Hf, Hfl, Hex. simpl.
  rewrite (object_default_fields_eq w self o n Hk Hd Hst). simpl.
  eexists. split; [reflexivity|]. fold f0. split.
  - intros a f H. apply In_add_defaults in H. destruct H as [H|[]].
    apply In_set_seq in H. destruct H as [H|[]].
    apply in_map_iff in H. destruct H as (x & [= <- <-] & Hx). now split.
  - intros a Ha. rewrite get_add_defaults. simpl. unfold items.
    destruct (@get_set_seq_key field
                (map (fun a => (a, f0)) (public_attrs d)) a)
      as (v & Hv & Hin).
    + rewrite map_map. simpl. now rewrite map_id.
    + rewrite Hv. apply in_map_iff in Hin.
      destruct Hin as (x & [= <- <-] & _). reflexivity.
Qed.

Lemma extended_invariants (self self' : serializer) (st : list oid) :
  stack_extended self self' ->
  stack (attrs self) = Some st ->
  plain self -> converting w self ->
  exists ext,
    stack (attrs self') = Some (st ++ ext)
    /\ plain self' /\ converting w self'.
Proof.
  unfold stack_extended. intros He Hst Hp Hc. rewrite Hst in He.
  destruct He as [ext ->]. exists ext. split; [reflexivity|].
  split; [now apply plain_with_stack|now apply converting_with_stack].
Qed.

Section Step.
Variable fuel : nat.
Hypothesis IH :
  forall r v self st,
    plain self -> converting w self ->
    stack (attrs self) = Some st ->
    value_closed (List.length (heap w)) v = true ->
    List.length (unvisited w st) <= r ->
    vheight v + 1 + r * (heap_height w + 1) <= fuel ->
    exists p self', to_native w fuel self v = Ok (p, self').

Lemma convert_items_terminates (r : nat) (xs : list value) :
  (forall x, In x xs ->
             value_closed (List.length (heap w)) x = true
             /\ vheight x + 1 + r * (heap_height w + 1) <= fuel) ->
  forall self st,
    plain self -> converting w self ->
    stack (attrs self) = Some st ->
    List.length (unvisited w st) <= r ->
    exists ps self',
      convert_items (to_native w fuel) self xs = Ok (ps, self').
Proof.
  intros Hxs self st Hp Hc Hst Hr. unfold convert_items.
  enough (forall acc : list prim,
             exists ps self',
               for_each (fun acc x =>
                           '(p, self') <- to_native w fuel (snd acc) x ;;
                           Ok (fst acc ++ [p], self'))
                        xs (acc, self) = Ok (ps, self')) as H
      by apply H.
  revert self st Hp Hc Hst Hr.
  induction xs as [|x xs IHxs]; intros self st Hp Hc Hst Hr acc; simpl.
  - now exists acc, self.
  - destruct (Hxs x) as [Hx1 Hx2]; [now left|].
    destruct (@IH r x self st Hp Hc Hst Hx1 Hr Hx2) as (p & s1 & H1).
    rewrite H1. simpl.
    pose proof (@to_native_extends w fuel self s1 x p H1) as He.
    destruct (@extended_invariants self s1 st He Hst Hp Hc)
      as (ext & Hst1 & Hp1 & Hc1).
    apply (IHxs (fun y Hy => Hxs y (or_intror Hy)) s1 (st ++ ext));
      try assumption.
    pose proof (unvisited_app st ext). lia.
Qed.

Lemma convert_object_terminates (r : nat) (o : oid) (self : serializer)
    (st : list oid) :
  plain self -> (in_stack w o st = true -> converting w self) ->
  stack (attrs self) = Some st ->
  o < List.length (heap w) ->
  List.length (unvisited w st) <= r ->
  r * (heap_height w + 1) <= fuel ->
  exists p self', convert_object w (to_native w fuel) self o = Ok (p, self').
Proof.
  intros Hp Hc Hst Ho Hr Hfuel.
  pose proof Hp as (Hk & Hb & Hf & Hfl & Hex & Hroot & _).
  unfold convert_object, determine_recursion. rewrite Hst, Hroot.
  rewrite andb_true_r. destruct (in_stack w o st) eqn:Hin; simpl.
  - destruct (Hc eq_refl) as (so & name & d & Hobj & Hname & Hd & Hpub).
    unfold cycle_fallback. rewrite Hobj.
    destruct (@plain_get_fields self so d (NBool false) st Hp Hst Hd)
      as (fl & Hg & _ & Hget).
    rewrite Hg. simpl. rewrite Hname. unfold getitem.
    rewrite (Hget name Hpub). simpl.
    destruct (@getattr_public so d name Hd Hpub) as (v & Hv & _).
    rewrite Hv. simpl. eauto.
  - destruct (nth_error (heap w) o) as [d|] eqn:Hd;
      [|apply nth_error_None in Hd; lia].
    set (self1 := with_attrs (set_stack (st ++ [o]) (attrs self)) self).
    assert (plain self1) as Hp1 by now apply plain_with_stack.
    destruct (@plain_get_fields self1 o d (nested (opts (attrs self)))
                (st ++ [o]) Hp1 eq_refl Hd)
      as (fl & Hg & Hall & _).
    change (nested (opts (attrs self1))) with (nested (opts (attrs self)))
      in Hg.
    rewrite Hg. simpl.
    assert (exists ret, convert_fields w (to_native w fuel) o fl = Ok ret)
      as [ret Hret]; [|rewrite Hret; simpl; eauto].
    unfold convert_fields. apply for_each_all_ok.
    intros acc [a f] Hkv. destruct (Hall a f Hkv) as [Ha ->].
    destruct (@getattr_public o d a Hd Ha) as (v & Hv & Hav).
    simpl fst. simpl snd.
    destruct (truthy (nested (opts (attrs self)))).
    + set (child := mkSerializer
                      (set_obj o a
                         (initialized_attrs (st ++ [o])
                            (nested (opts (attrs self)))
                            (attrs (new_same_class self1))))
                      (base_fields self) (base_fields self)).
      assert (plain child) as Hpc
          by exact (@plain_child self1 (st ++ [o])
                      (nested (opts (attrs self))) o a Hp1).
      destruct (@attr_closed o d a v Hd Hav) as [Hvc Hvh].
      pose proof (@unvisited_push st o Ho (@not_in_stack o st Hin)) as Hlt.
      destruct r as [|r']; [lia|].
      destruct (@IH r' v child (st ++ [o])) as (p & s' & Hn).
      * exact Hpc.
      * exists o, a, d. repeat split; assumption.
      * reflexivity.
      * exact Hvc.
      * lia.
      * simpl in Hfuel. lia.
      * change (initialized (st ++ [o]) (nested (opts (attrs self)))
                  (as_field (new_same_class self1)))
          with (Ser (initialized_attrs (st ++ [o])
                       (nested (opts (attrs self)))
                       (attrs (new_same_class self1)))
                    (base_fields self) (base_fields self)).
        rewrite (@field_to_native_nested w (to_native w fuel) _ _ _ o a v).
        -- rewrite entered_object by exact Hk.
           fold child. rewrite Hn. simpl. eauto.
        -- destruct Hpc as (_ & _ & _ & _ & _ & Hr6 & _). exact Hr6.
        -- exact Hv.
    + simpl. rewrite Hv. simpl. eauto.
Qed.
End Step.

(** With enough fuel, a plain serializer at work as a field converts any
    value of the heap. The fuel is counted in nested calls: one for the
    value, one for each level of a list or dictionary, and for each object
    not yet on the stack one more than the height of the heap. *)
Lemma to_native_terminates (fuel : nat) :
  forall r v self st,
    plain self -> converting w self ->
    stack (attrs self) = Some st ->
    value_closed (List.length (heap w)) v = true ->
    List.length (unvisited w st) <= r ->
    vheight v + 1 + r * (heap_height w + 1) <= fuel ->
    exists p self', to_native w fuel self v = Ok (p, self').
Proof.
  induction fuel as [|fuel IH]; intros r v self st Hp Hc Hst Hv Hr Hf;
    [lia|].
  destruct v as [s|kvs|xs|o]; simpl.
  - eauto.
  - destruct (@convert_items_terminates fuel IH r (map snd kvs))
      with (self := self) (st := st) as (ps & s' & H); try assumption.
    + intros x Hx. apply in_map_iff in Hx. destruct Hx as (kv & <- & Hkv).
      simpl in Hv, Hf. rewrite forallb_forall in Hv. split; [now apply Hv|].
      assert (vheight (snd kv)
              <= list_max (map (fun kv => vheight (snd kv)) kvs)) as Hle
          by (apply list_max_ge, in_map_iff; now exists kv).
      lia.
    + rewrite H. simpl. eauto.
  - destruct (@convert_items_terminates fuel IH r xs)
      with (self := self) (st := st) as (ps & s' & H); try assumption.
    + intros x Hx. simpl in Hv, Hf. rewrite forallb_forall in Hv.
      split; [now apply Hv|].
      assert (vheight x <= list_max (map vheight xs)) as Hle
          by (apply list_max_ge, in_map_iff; now exists x).
      lia.
    + rewrite H. simpl. eauto.
  - apply (@convert_object_terminates fuel IH r o self st); try assumption.
    + intros _. exact Hc.
    + simpl in Hv. now apply Nat.ltb_lt.
    + simpl in Hf. lia.
Qed.

Lemma references_in_heap (o o' : oid) :
  references w o o' = true -> o < List.length (heap w).
Proof.
  unfold references. destruct (nth_error (heap w) o) eqn:E;
    [|discriminate].
  intros _. apply nth_error_Some. congruence.
Qed.

Lemma plain_prepare (self : serializer) (n : option nested_opt) :
  plain self ->
  plain (prepare self (mkOverrides None None n))
  /\ stack (attrs (prepare self (mkOverrides None None n))) = Some [].
Proof.
  intros Hp. pose proof Hp as (H1 & H2 & H3 & H4 & H5 & H6 & H7 & H8 & H9).
  unfold prepare, route_to_root_fields. rewrite H3. simpl.
  unfold plain, apply_overrides. simpl.
  destruct n; simpl; tauto.
Qed.

(** A plain serializer at the top of a traversal converts any object of
    the heap. *)
Lemma serialize_terminates (self : serializer) (o : oid)
    (n : option nested_opt) (fuel : nat) :
  plain self ->
  o < List.length (heap w) ->
  1 + List.length (heap w) * (heap_height w + 1) <= fuel ->
  exists p self',
    serialize w fuel self "python" (VRef o) (mkOverrides None None n)
    = Ok (Python p, self').
Proof.
  intros Hp Ho Hfuel. unfold serialize.
  destruct (@plain_prepare self n Hp) as [Hp' Hst].
  destruct fuel as [|fuel]; [lia|]. simpl to_native.
  destruct (@convert_object_terminates fuel (@to_native_terminates fuel)
              (List.length (heap w)) o
              (prepare self (mkOverrides None None n)) [] Hp')
    as (p & s' & H); try assumption.
  - discriminate.
  - unfold unvisited. etransitivity; [apply List.filter_length_le|].
    now rewrite length_seq.
  - lia.
  - unfold to_native_body. rewrite H. simpl. eauto.
Qed.
End Termination.

(** ** Cycles *)

(** The branch of [convert_object] for an object on the stack, written out:
    the field set of the object [self] is at work on, computed with
    [nested=False], and from it the one field [self] is at work as. *)
Lemma cycle_fallback_unfolded (w : world)
    (rec : serializer -> value -> result (prim * serializer))
    (self : serializer) (o so : oid) (name : string) (st : list oid) :
  stack (attrs self) = Some st ->
  in_stack w o st = true ->
  is_root (opts (attrs self)) = false ->
  obj (attrs self) = Some so ->
  field_name (attrs self) = Some name ->
  convert_object w rec self o
  = fl <- get_fields w self (Some so) (NBool false) ;;
    field <- SortedDict.getitem name fl ;;
    p <- field_to_native w rec field so name ;;
    Ok (p, self).
Proof.
  intros Hst Hin Hroot Hobj Hname.
  rewrite (convert_object_on_stack w rec self o Hst Hroot Hin).
  unfold cycle_fallback. rewrite Hobj, Hname.
  destruct (get_fields w self (Some so) (NBool false)); simpl; try reflexivity.
  destruct (SortedDict.getitem name a); reflexivity.
Qed.

(** With an [ObjectSerializer] class that declares no fields and sets no
    allowlist, exclusion or root flag, [serialize] of an object of a closed
    heap returns a primitive tree, whatever references the objects hold to
    each other and whatever the [nested] option is, as soon as the fuel
    covers the nesting the heap allows. In particular it does so for two
    objects that refer to each other, where the second occurrence of the
    first object comes out flat. *)
Theorem object_serializer_cycle_terminates (w : world) (self : serializer)
    (x y : oid) (n : option nested_opt) :
  heap_closed w = true ->
  plain self ->
  references w x y = true ->
  references w y x = true ->
  (forall fuel,
      1 + List.length (heap w) * (heap_height w + 1) <= fuel ->
      exists p self',
        serialize w fuel self "python" (VRef x) (mkOverrides None None n)
        = Ok (Python p, self'))
  /\ (forall fuel, exists self',
         serialize xy_world (3 + fuel) (object_serializer (NBool true))
                   "python" (VRef 0) no_overrides
         = Ok (Python (PMap [("name", PScalar (SStr "x"));
                             ("y", PMap [("x", PFlat (VRef 0))])]),
               self')).
Proof.
  intros Hc Hp Hxy Hyx. split.
  - intros fuel Hfuel. apply serialize_terminates; try assumption.
    eapply references_in_heap. exact Hxy.
  - intros fuel. eexists. reflexivity.
Qed.

Lemma object_serializer_cycle_terminates_example :
  heap_closed xy_world = true
  /\ plain (object_serializer (NBool true))
  /\ references xy_world 0 1 = true
  /\ references xy_world 1 0 = true
  /\ exists p self',
      serialize xy_world 5 (object_serializer (NBool true)) "python" (VRef 0)
                no_overrides
      = Ok (Python p, self').
Proof.
  assert (plain (object_serializer (NBool true))) as Hp
      by (unfold plain; simpl; tauto).
  repeat split; try reflexivity; try exact Hp.
  destruct (@object_serializer_cycle_terminates xy_world
              (object_serializer (NBool true)) 0 1 None
              eq_refl Hp eq_refl eq_refl) as [H _].
  apply (H 5). simpl. lia.
Defined.

(** C1. The claim does not hold of the code for a [ModelSerializer]: its
    [field_to_native] records neither the object nor the name of the field
    on the serializer, so that the fallback of [convert_object], which reads
    them, raises [AttributeError] when it meets an object on the stack. Two
    model instances with a foreign key to each other, serialized with
    [nested] set: the walk ends, and it ends in that exception. *)
Theorem model_serializer_cycle_raises (fuel : nat) :
  serialize xy_model_world (3 + fuel) (model_serializer (NBool true))
            "python" (VRef 0) no_overrides
  = Raise (AttributeError "obj").
Proof. reflexivity. Qed.

(** * Further properties *)

(** ** Declared fields of several bases *)

Section MoreDeclaredFields.
Import SortedDict SortedDictFacts.
Variable F : Type.
Variable creation_counter : F -> Z.

Lemma NoDup_of_pairs (l : list (string * F)) (d : t F) :
  NoDup (keys d) ->
  NoDup (keys (fold_left (fun d kv => set (fst kv) (snd kv) d) l d)).
Proof.
  revert d. induction l as [|[k v] r IH]; intros d H; simpl; [assumption|].
  apply IH. now apply NoDup_keys_set.
Qed.

(** The fields of the bases that have [base_fields], in the order the bases
    are listed. *)
Lemma bases_in_listed_order (bases : list (option (sorted_dict F)))
    (own : list (string * F)) :
  fold_left (fun fields base =>
               match base with
               | Some base_fields => items base_fields ++ fields
               | None => fields
               end) (rev bases) own
  = flat_map (fun base => match base with
                          | Some base_fields => items base_fields
                          | None => []
                          end) bases ++ own.
Proof.
  induction bases as [|b r IH]; [reflexivity|].
  cbn [rev flat_map]. rewrite fold_left_app. cbn [fold_left].
  destruct b as [d|]; [|exact IH].
  rewrite <- app_assoc. f_equal. exact IH.
Qed.

(** X1. The reversed loop over the bases puts the fields of the bases in the
    order in which the bases are listed, those of the class itself last; a
    base without [base_fields] adds nothing. *)
Theorem declared_fields_of_several_bases
    (bases : list (option (sorted_dict F)))
    (attrs : list (string * class_attr F)) :
  _get_declared_fields creation_counter bases attrs
  = of_pairs (flat_map (fun base => match base with
                                    | Some base_fields => items base_fields
                                    | None => []
                                    end) bases
              ++ py_sorted (by_counter creation_counter) (own_fields attrs))
  /\ _get_declared_fields creation_counter (None :: bases) attrs
     = _get_declared_fields creation_counter bases attrs.
Proof.
  unfold _get_declared_fields. split.
  - now rewrite bases_in_listed_order.
  - now rewrite !bases_in_listed_order.
Qed.

(** X2. Whatever the bases and the class body hold, no name occurs twice in
    the declared field set, every name of a base with [base_fields] is in it
    and so is every name the class declares a field under. *)
Theorem declared_fields_names (bases : list (option (sorted_dict F)))
    (attrs : list (string * class_attr F)) :
  let r := _get_declared_fields creation_counter bases attrs in
  NoDup (keys r)
  /\ (forall base k, In (Some base) bases -> In k (keys base) -> In k (keys r))
  /\ (forall k f, In (k, IsField f) attrs -> In k (keys r)).
Proof.
  intros r.
  assert (r = of_pairs
                (flat_map (fun base => match base with
                                       | Some base_fields => items base_fields
                                       | None => []
                                       end) bases
                 ++ py_sorted (by_counter creation_counter) (own_fields attrs)))
    as E.
  { unfold r, _get_declared_fields. now rewrite bases_in_listed_order. }
  assert (forall l : list (string * F), forall k,
             In k (map fst l) -> In k (keys (of_pairs l))) as Hin.
  { intros l k H. unfold of_pairs. rewrite keys_set_seq_nil.
    induction (map fst l) as [|y s IH]; simpl in *; [tauto|].
    destruct H as [->|H]; [now left|].
    destruct (String.eqb_spec k y) as [->|Hne]; [now left|].
    right. apply filter_In. split; [now apply IH|].
    destruct (String.eqb_spec k y); [congruence|reflexivity]. }
  split; [|split].
  - rewrite E. unfold of_pairs. apply NoDup_of_pairs. constructor.
  - intros base k Hb Hk. rewrite E. apply Hin. rewrite map_app.
    apply in_or_app. left. apply in_map_iff in Hk.
    destruct Hk as (kv & <- & Hkv). apply in_map. apply in_flat_map.
    exists (Some base). now split.
  - intros k f Hkf. rewrite E. apply Hin. rewrite map_app.
    apply in_or_app. right.
    eapply Permutation_in;
      [apply Permutation_map, py_sorted_perm|].
    apply in_map_iff. exists (k, f). split; [reflexivity|].
    unfold own_fields. apply in_flat_map. exists (k, IsField f).
    split; [assumption|now left].
Qed.

(** X3. A class that declares no field of its own and has one base gets the
    field set of the base as it is. *)
Theorem declared_fields_inherited_unchanged (base : sorted_dict F)
    (attrs : list (string * class_attr F)) :
  NoDup (keys base) ->
  (forall k a, In (k, a) attrs -> a = NotField) ->
  _get_declared_fields creation_counter [Some base] attrs = base.
Proof.
  intros Hb Hno.
  assert (own_fields attrs = []) as E.
  { induction attrs as [|[k a] r IH]; simpl; [reflexivity|].
    rewrite (Hno k a) by now left. simpl. apply IH.
    intros k' a' H. apply (Hno k' a'). now right. }
  rewrite single_base, E by assumption. reflexivity.
Qed.
End MoreDeclaredFields.

Lemma declared_fields_inherited_unchanged_witness :
  _get_declared_fields (fun z : Z => z)
    [Some [("A", 1%Z); ("B", 2%Z)]] [("__doc__", NotField)]
  = [("A", 1%Z); ("B", 2%Z)].
Proof.
  apply declared_fields_inherited_unchanged.
  - simpl. repeat constructor; simpl; intuition discriminate.
  - intros k a [[= <- <-]|[]]. reflexivity.
Defined.

(** ** The field set, whatever the serializer *)

Section MoreFieldSets.
Import SortedDict SortedDictFacts.
Variable w : world.

Lemma NoDup_add_defaults (V : Type) (l : list (string * V)) (d : t V) :
  NoDup (keys d) ->
  NoDup (keys (fold_left (fun ret kv => if contains (fst kv) ret then ret
                                        else set (fst kv) (snd kv) ret) l d)).
Proof.
  revert d. induction l as [|[k v] r IH]; intros d H; simpl; [assumption|].
  apply IH. destruct (contains k d); [assumption|now apply NoDup_keys_set].
Qed.

Lemma merged_fields_NoDup (self : serializer) (obj : option oid)
    (n : nested_opt) (merged : sorted_dict field) :
  merged_fields w self obj n = Ok merged -> NoDup (keys merged).
Proof.
  unfold merged_fields. intros H.
  apply bind_Ok in H. destruct H as (decl & Hd & H).
  apply bind_Ok in H. destruct H as (defaults & _ & [= <-]).
  apply NoDup_add_defaults.
  apply for_each_set_inv
    with (key := fun kv : string * field => fst kv)
         (val := fun kv => initialize self (snd kv)) in Hd.
  destruct Hd as (pairs & _ & ->). apply NoDup_of_pairs. constructor.
Qed.

(** X4. Whatever the serializer and the object, the field set [get_fields]
    returns binds no name twice and binds no name of [Options.exclude]. *)
Theorem get_fields_names_distinct (self : serializer) (obj : option oid)
    (n : nested_opt) (ret : sorted_dict field) :
  get_fields w self obj n = Ok ret ->
  NoDup (keys ret)
  /\ (forall k, In k (exclude (opts (attrs self))) -> get k ret = None).
Proof.
  unfold get_fields. intros H.
  apply bind_Ok in H. destruct H as (merged & Hm & H).
  apply bind_Ok in H. destruct H as (sel & Hsel & [= <-]).
  split.
  - rewrite keys_remove_excluded. apply NoDup_filter.
    unfold use_specified in Hsel.
    destruct (fields (opts (attrs self))) as [|a r].
    + injection Hsel as <-. eapply merged_fields_NoDup. exact Hm.
    + apply for_each_set_inv
        with (key := fun a : string => a)
             (val := fun a => getitem a merged) in Hsel.
      destruct Hsel as (pairs & _ & ->). apply NoDup_of_pairs. constructor.
  - intros k Hk. rewrite get_remove_excluded.
    apply mem_In in Hk. now rewrite Hk.
Qed.
End MoreFieldSets.

Lemma get_fields_names_distinct_witness :
  exists ret,
    get_fields person_world (listing_serializer [] ["secret"] []) (Some 0)
               (NBool false) = Ok ret
    /\ NoDup (SortedDict.keys ret)
    /\ SortedDict.get "secret" ret = None.
Proof.
  eexists. split; [reflexivity|].
  destruct (@get_fields_names_distinct person_world
              (listing_serializer [] ["secret"] []) (Some 0) (NBool false)
              _ eq_refl) as [H1 H2].
  split; [exact H1|]. apply H2. simpl. tauto.
Defined.

(** ** Values without composite objects, and serializers without a stack *)

Section PlainValues.
Variable w : world.

Lemma combine_as_prim (kvs : list (string * value)) :
  combine (map fst kvs) (map as_prim (map snd kvs))
  = map (fun kv => (fst kv, as_prim (snd kv))) kvs.
Proof.
  induction kvs as [|[k v] r IH]; simpl; [reflexivity|]. now rewrite IH.
Qed.

Lemma forallb_snd (f : value -> bool) (kvs : list (string * value)) :
  forallb (fun kv => f (snd kv)) kvs = forallb f (map snd kvs).
Proof.
  induction kvs as [|kv r IH]; simpl; [reflexivity|]. now rewrite IH.
Qed.

Lemma list_max_snd (kvs : list (string * value)) :
  list_max (map (fun kv => vheight (snd kv)) kvs)
  = list_max (map vheight (map snd kvs)).
Proof. now rewrite map_map. Qed.

Section Items.
Variable rec : serializer -> value -> result (prim * serializer).
Variable self : serializer.

Lemma convert_items_unchanged (xs : list value) :
  (forall x, In x xs -> rec self x = Ok (as_prim x, self)) ->
  convert_items rec self xs = Ok (map as_prim xs, self).
Proof.
  intros H. unfold convert_items.
  enough (forall acc,
             for_each (fun acc x =>
                         '(p, self') <- rec (snd acc) x ;;
                         Ok (fst acc ++ [p], self')) xs (acc, self)
             = Ok (acc ++ map as_prim xs, self)) as E by apply (E []).
  induction xs as [|x r IH]; intros acc; simpl.
  - now rewrite app_nil_r.
  - rewrite (H x) by now left. simpl. rewrite IH.
    + now rewrite <- app_assoc.
    + intros y Hy. apply H. now right.
Qed.

Lemma convert_items_first_raise (xs : list value) (e : error) :
  (forall x, In x xs -> ref_free x = true -> rec self x = Ok (as_prim x, self)) ->
  (forall x, In x xs -> ref_free x = false -> rec self x = Raise e) ->
  forallb ref_free xs = false ->
  convert_items rec self xs = Raise e.
Proof.
  intros Hok Hbad. unfold convert_items.
  enough (forall acc,
             forallb ref_free xs = false ->
             for_each (fun acc x =>
                         '(p, self') <- rec (snd acc) x ;;
                         Ok (fst acc ++ [p], self')) xs (acc, self)
             = Raise e) as E by apply (E []).
  induction xs as [|x r IH]; intros acc Hf; simpl in *; [discriminate|].
  destruct (ref_free x) eqn:Ex.
  - rewrite (Hok x) by auto. simpl. apply IH; auto.
  - rewrite (Hbad x) by auto. reflexivity.
Qed.
End Items.

Lemma ref_free_to_native (fuel : nat) (self : serializer) (v : value) :
  ref_free v = true ->
  vheight v < fuel ->
  to_native w fuel self v = Ok (as_prim v, self).
Proof.
  revert self v. induction fuel as [|fuel IH]; intros self v Hf Hh; [lia|].
  destruct v as [s|kvs|xs|o]; simpl in *.
  - reflexivity.
  - rewrite convert_items_unchanged.
    + simpl. now rewrite combine_as_prim.
    + intros x Hx. apply IH.
      * rewrite forallb_snd, forallb_forall in Hf. now apply Hf.
      * rewrite list_max_snd in Hh.
        pose proof (list_max_ge (map vheight (map snd kvs)) (vheight x)
                      (in_map vheight _ _ Hx)). lia.
  - rewrite convert_items_unchanged; [reflexivity|].
    intros x Hx. apply IH.
    + rewrite forallb_forall in Hf. now apply Hf.
    + pose proof (list_max_ge (map vheight xs) (vheight x)
                    (in_map vheight _ _ Hx)). lia.
  - discriminate.
Qed.

(** X5. A value in which no composite object occurs - scalars, and lists and
    dictionaries of such values - converts to the primitive tree of its own
    shape, and the serializer is left as it was; its fields, options and
    stack play no part. *)
Theorem value_without_objects_converts_to_itself (fuel : nat)
    (self : serializer) (v : value) :
  ref_free v = true ->
  vheight v < fuel ->
  to_native w fuel self v = Ok (as_prim v, self).
Proof.
  intros Hf Hh. now apply ref_free_to_native.
Qed.

(** Without a stack the conversion of a composite object raises; with the
    elements of a sequence converted in place, so does every value in
    which one occurs. *)
Lemma to_native_without_stack (fuel : nat) (self : serializer) (v : value) :
  stack (attrs self) = None ->
  ref_free v = false ->
  vheight v < fuel ->
  to_native w fuel self v = Raise (AttributeError "stack").
Proof.
  intros Hst. revert v. induction fuel as [|fuel IH]; intros v Hf Hh; [lia|].
  destruct v as [s|kvs|xs|o]; simpl in *.
  - discriminate.
  - rewrite convert_items_first_raise with (e := AttributeError "stack");
      [reflexivity| | |now rewrite <- forallb_snd].
    + intros x Hx Hx'. apply ref_free_to_native;
        [assumption|].
      rewrite list_max_snd in Hh.
      pose proof (list_max_ge (map vheight (map snd kvs)) (vheight x)
                    (in_map vheight _ _ Hx)). lia.
    + intros x Hx Hx'. apply IH; [assumption|].
      rewrite list_max_snd in Hh.
      pose proof (list_max_ge (map vheight (map snd kvs)) (vheight x)
                    (in_map vheight _ _ Hx)). lia.
  - rewrite convert_items_first_raise with (e := AttributeError "stack");
      [reflexivity| | |assumption].
    + intros x Hx Hx'. apply ref_free_to_native;
        [assumption|].
      pose proof (list_max_ge (map vheight xs) (vheight x)
                    (in_map vheight _ _ Hx)). lia.
    + intros x Hx Hx'. apply IH; [assumption|].
      pose proof (list_max_ge (map vheight xs) (vheight x)
                    (in_map vheight _ _ Hx)). lia.
  - unfold convert_object, determine_recursion. now rewrite Hst.
Qed.

Lemma met_within_call_not_ref_free (v : value) :
  met_within_call v = true -> ref_free v = false.
Proof.
  enough (forall n v, vheight v < n ->
                      met_within_call v = true -> ref_free v = false) as H
      by exact (H (S (vheight v)) v (Nat.lt_succ_diag_r _)).
  clear v. induction n as [|n IH]; intros v Hh; [lia|].
  destruct v as [s|kvs|xs|o]; simpl in *; try discriminate.
  - intros H. apply existsb_exists in H. destruct H as ([k x] & Hin & Hx).
    apply not_true_is_false. intros Hall.
    rewrite forallb_forall in Hall. specialize (Hall _ Hin). simpl in *.
    rewrite IH in Hall; [discriminate| |exact Hx].
    pose proof (list_max_ge (map (fun kv => vheight (snd kv)) kvs) (vheight x))
      as Hle.
    assert (In (vheight x) (map (fun kv => vheight (snd kv)) kvs)) as Hi.
    { apply in_map_iff. now exists (k, x). }
    specialize (Hle Hi). lia.
  - reflexivity.
Qed.

(** X6. A serializer whose stack has not been set - one that was
    constructed but has not gone through [serialize], [deserialize] or
    [initialize] - raises [AttributeError] from the call of [to_native] for
    a composite object, and for every dictionary that holds one as a value,
    directly or in a dictionary within it. *)
Theorem to_native_without_stack_raises (fuel : nat) (self : serializer)
    (v : value) :
  stack (attrs self) = None ->
  met_within_call v = true ->
  vheight v < fuel ->
  to_native w fuel self v = Raise (AttributeError "stack").
Proof.
  intros Hst Hv Hh. apply to_native_without_stack; [exact Hst| |exact Hh].
  now apply met_within_call_not_ref_free.
Qed.
End PlainValues.

Lemma value_without_objects_converts_to_itself_witness :
  to_native xy_world 4 (object_serializer (NBool true))
            (VList [VScalar (SInt 1); VDict [("k", VList [])]])
  = Ok (PSeq [PScalar (SInt 1); PDict [("k", PSeq [])]],
        object_serializer (NBool true)).
Proof.
  apply (@value_without_objects_converts_to_itself xy_world 4
           (object_serializer (NBool true))
           (VList [VScalar (SInt 1); VDict [("k", VList [])]])).
  - reflexivity.
  - simpl. lia.
Defined.

Lemma to_native_without_stack_raises_witness :
  to_native xy_world 2 (object_serializer (NBool true))
            (VDict [("n", VScalar (SInt 1)); ("x", VRef 0)])
  = Raise (AttributeError "stack").
Proof.
  apply (@to_native_without_stack_raises xy_world 2
           (object_serializer (NBool true))
           (VDict [("n", VScalar (SInt 1)); ("x", VRef 0)])).
  - reflexivity.
  - reflexivity.
  - simpl. lia.
Defined.

(** ** [serialize] *)

Section MoreSerialize.
Variable w : world.

Lemma prepare_keeps (self : serializer) (kw : overrides) :
  obj (attrs (prepare self kw)) = obj (attrs self)
  /\ field_name (attrs (prepare self kw)) = field_name (attrs self)
  /\ is_root (opts (attrs (prepare self kw))) = is_root (opts (attrs self))
  /\ renderer_classes (opts (attrs (prepare self kw)))
     = renderer_classes (opts (attrs self))
  /\ stack (attrs (prepare self kw)) = Some [].
Proof.
  unfold prepare.
  destruct (route_to_root_fields (s_fields self) kw) as [[fs kw'] h].
  destruct h; simpl; [tauto|].
  unfold apply_overrides.
  destruct (o_fields kw'), (o_exclude kw'), (o_nested kw'); simpl; tauto.
Qed.

Lemma serialize_after_conversion (fuel : nat) (self self' : serializer)
    (format : string) (v : value) (kw : overrides) (data : prim) :
  to_native w fuel (prepare self kw) v = Ok (data, self') ->
  serialize w fuel self format v kw
  = if negb (String.eqb format "python")
    then renderer <- SortedDict.getitem format
                       (renderer_classes (opts (attrs self'))) ;;
         Ok (Rendered renderer data, self')
    else Ok (Python data, self').
Proof. intros H. unfold serialize. rewrite H. reflexivity. Qed.

Lemma converted_keeps_opts (fuel : nat) (self self' : serializer) (v : value)
    (p : prim) :
  to_native w fuel self v = Ok (p, self') ->
  opts (attrs self') = opts (attrs self)
  /\ obj (attrs self') = obj (attrs self).
Proof.
  intros H. apply to_native_extends in H. unfold stack_extended in H.
  destruct (stack (attrs self)); [destruct H as [ext ->]|subst]; simpl; tauto.
Qed.

Lemma converted_object_is_on_stack (fuel : nat) (self self' : serializer)
    (o : oid) (p : prim) (st : list oid) :
  to_native w fuel self (VRef o) = Ok (p, self') ->
  stack (attrs self) = Some st ->
  exists ext,
    self' = with_attrs (set_stack (st ++ ext) (attrs self)) self
    /\ in_stack w o (st ++ ext) = true.
Proof.
  intros Hn Hst.
  pose proof (@to_native_extends w fuel self self' (VRef o) p Hn) as He.
  unfold stack_extended in He. rewrite Hst in He. destruct He as [ext ->].
  exists ext. split; [reflexivity|].
  destruct fuel as [|fuel]; [discriminate|]. simpl in Hn.
  apply convert_object_result in Hn.
  destruct Hn as (st0 & Hst0 & [[Hin Heq]|Heq]).
  - rewrite Hst in Hst0. injection Hst0 as <-.
    rewrite in_stack_app, Hin. reflexivity.
  - rewrite Hst in Hst0. injection Hst0 as <-.
    apply (f_equal (fun s => stack (attrs s))) in Heq. simpl in Heq.
    injection Heq as ->. apply in_stack_pushed.
Qed.

(** X7. The fallback of [convert_object] reads the object and the field
    name, which only [field_to_native] assigns. A serializer that is not
    used as a field and is no root therefore raises [AttributeError] when
    the dictionary it is given holds the same composite object under its
    first two keys, though it converts the object on its own: the values
    of a dictionary are converted within the call, and the second of them
    is found on the stack. *)
Theorem repeated_object_in_dict_raises (fuel : nat) (self : serializer)
    (o : oid) (format : string) (kw : overrides)
    (r : serialized * serializer) (k1 k2 : string)
    (rest : list (string * value)) :
  obj (attrs self) = None ->
  is_root (opts (attrs self)) = false ->
  serialize w fuel self format (VRef o) kw = Ok r ->
  serialize w (S fuel) self format
            (VDict ((k1, VRef o) :: (k2, VRef o) :: rest)) kw
  = Raise (AttributeError "obj").
Proof.
  intros Hobj Hroot Hs.
  destruct (prepare_keeps self kw) as (Ho & _ & Hr & _ & Hst).
  unfold serialize in *.
  apply bind_Ok in Hs. destruct Hs as ([data self1] & Hn & _).
  destruct (@converted_object_is_on_stack fuel (prepare self kw) self1 o data
              [] Hn Hst) as (ext & E & Hin).
  destruct fuel as [|fuel]; [discriminate|].
  assert (to_native w (S fuel) self1 (VRef o) = Raise (AttributeError "obj"))
    as Hsecond.
  { cbn [to_native to_native_body].
    rewrite (@convert_object_on_stack w (to_native w fuel) self1 o
               ([] ++ ext)).
    - unfold cycle_fallback.
      destruct (converted_keeps_opts _ _ _ Hn) as (_ & Ho1).
      now rewrite Ho1, Ho, Hobj.
    - now rewrite E.
    - rewrite E. cbn [opts attrs with_attrs set_stack]. now rewrite Hr.
    - exact Hin. }
  cbn [to_native to_native_body map snd]. unfold convert_items.
  cbn [for_each snd fst]. change (to_native_body w (to_native w fuel))
    with (to_native w (S fuel)).
  rewrite Hn. cbn [bind snd fst]. rewrite Hsecond. reflexivity.
Qed.

(** X8. Once the conversion has given a tree, a serializer whose renderers
    are the default ones returns the tree itself for ['python'], what the
    renderer writes for ['xml'], ['json'], ['yaml'], ['csv'] and ['html'],
    and raises [KeyError] for any other format. *)
Theorem serialize_formats (fuel : nat) (self self' : serializer)
    (format : string) (v : value) (kw : overrides) (data : prim) :
  renderer_classes (opts (attrs self)) = default_renderer_classes ->
  to_native w fuel (prepare self kw) v = Ok (data, self') ->
  (format = "python" ->
   serialize w fuel self format v kw = Ok (Python data, self'))
  /\ (In format ["xml"; "json"; "yaml"; "csv"; "html"] ->
      exists renderer,
        SortedDict.get format default_renderer_classes = Some renderer
        /\ serialize w fuel self format v kw
           = Ok (Rendered renderer data, self'))
  /\ (~ In format default_formats ->
      serialize w fuel self format v kw = Raise (KeyError format)).
Proof.
  intros Hr Hn.
  rewrite (@serialize_after_conversion fuel self self' format v kw data Hn).
  destruct (@converted_keeps_opts fuel (prepare self kw) self' v data Hn)
    as (Ho & _).
  destruct (prepare_keeps self kw) as (_ & _ & _ & Hrc & _).
  rewrite Ho, Hrc, Hr. split; [|split].
  - intros ->. reflexivity.
  - intros [<-|[<-|[<-|[<-|[<-|[]]]]]]; eexists; split; reflexivity.
  - intros Hnot. unfold default_formats in Hnot. simpl in Hnot.
    assert (forall s, In s ["python"; "xml"; "json"; "yaml"; "csv"; "html"] ->
                      String.eqb format s = false) as Hne.
    { intros s Hs. apply String.eqb_neq. intros ->. contradiction. }
    rewrite (Hne "python") by (simpl; auto 10).
    unfold SortedDict.getitem, default_renderer_classes. simpl.
    rewrite !Hne by (simpl; auto 10). reflexivity.
Qed.
End MoreSerialize.

Lemma repeated_object_in_dict_raises_witness :
  (exists r, serialize xy_world 3 (object_serializer (NBool true)) "python"
                       (VRef 0) no_overrides = Ok r)
  /\ serialize xy_world 4 (object_serializer (NBool true)) "python"
               (VDict [("a", VRef 0); ("b", VRef 0)]) no_overrides
     = Raise (AttributeError "obj").
Proof.
  split; [eexists; reflexivity|].
  eapply (@repeated_object_in_dict_raises xy_world 3
            (object_serializer (NBool true)) 0 "python" no_overrides _
            "a" "b" []);
    reflexivity.
Defined.

Lemma serialize_formats_witness :
  serialize xy_world 3 (object_serializer (NBool true)) "toml" (VRef 0)
            no_overrides
  = Raise (KeyError "toml").
Proof.
  destruct (@serialize_formats xy_world 3 (object_serializer (NBool true)) _
              "toml" (VRef 0) no_overrides _ eq_refl eq_refl) as (_ & _ & H).
  apply H. unfold default_formats. simpl. intuition discriminate.
Defined.

(** ** Overrides *)

Section Overrides.
Variable w : world.

Lemma for_each_pointwise (A S : Type) (body : S -> A -> result S)
    (l1 l2 : list A) (s : S) :
  Forall2 (fun x y => forall s, body s x = body s y) l1 l2 ->
  for_each body l1 s = for_each body l2 s.
Proof.
  intros H. revert s. induction H as [|x y r1 r2 Hxy _ IH]; intros s; simpl.
  - reflexivity.
  - rewrite Hxy. destruct (body s y); simpl; auto.
Qed.

Lemma Forall2_same (A : Type) (R : A -> A -> Prop) (l : list A) :
  (forall x, R x x) -> Forall2 R l l.
Proof. intros H. induction l; constructor; auto. Qed.

Lemma apply_overrides_twice (kw : overrides) (o : options) :
  apply_overrides kw (apply_overrides kw o) = apply_overrides kw o.
Proof.
  unfold apply_overrides.
  destruct (o_fields kw), (o_exclude kw), (o_nested kw); reflexivity.
Qed.

Lemma prepare_without_root (self : serializer) (kw : overrides) :
  (forall kv, In kv (s_fields self) -> is_root_field (snd kv) = false) ->
  prepare self kw
  = mkSerializer
      (set_opts (apply_overrides kw (opts (attrs self)))
                (set_stack [] (attrs self)))
      (base_fields self) (s_fields self).
Proof.
  intros H. unfold prepare, route_to_root_fields, SortedDict.items.
  rewrite route_no_root by assumption. reflexivity.
Qed.

(** X9. When the serializer has a root field, the [nested] override that
    [serialize] hands to that field has no effect on the fields the
    serializer resolves: [initialize] sets the [nested] option of the field
    again from that of the parent before the field is used. *)
Theorem nested_override_of_root_field_is_lost (self : serializer)
    (pre post : list (string * field)) (name : string) (a : attributes)
    (b fs : list (string * field)) (fl ex : option (list string))
    (n : nested_opt) (obj : option oid) (nst : nested_opt) :
  s_fields self = pre ++ (name, Ser a b fs) :: post ->
  (forall kv, In kv pre -> is_root_field (snd kv) = false) ->
  is_root (opts a) = true ->
  get_fields w (prepare self (mkOverrides fl ex (Some n))) obj nst
  = get_fields w (prepare self (mkOverrides fl ex None)) obj nst.
Proof.
  intros Hf Hpre Hroot. unfold prepare.
  rewrite Hf, !route_first_root by assumption.
  unfold get_fields, merged_fields. cbn [attrs s_fields base_fields].
  match goal with
  | |- bind (bind ?x1 _) _ = bind (bind ?x2 _) _ =>
      assert (x1 = x2) as ->; [|reflexivity]
  end.
  unfold SortedDict.items. apply for_each_pointwise.
  apply Forall2_app; [apply Forall2_same; reflexivity|].
  constructor; [|apply Forall2_same; reflexivity].
  intros s. reflexivity.
Qed.

(** X10. When no field is a root, [serialize] writes the overrides into the
    options of the instance, and they stay there: the serializer it returns
    has them as its options, and for the instance with these options,
    whatever has become of its fields as long as none is a root, a later
    call without overrides is prepared as a call with the same overrides
    is. *)
Theorem overrides_stay_on_the_instance (fuel : nat) (self self' : serializer)
    (format : string) (v : value) (kw : overrides) (r : serialized) :
  (forall kv, In kv (s_fields self) -> is_root_field (snd kv) = false) ->
  serialize w fuel self format v kw = Ok (r, self') ->
  opts (attrs self') = apply_overrides kw (opts (attrs self))
  /\ forall later,
       opts (attrs later) = opts (attrs self') ->
       (forall kv, In kv (s_fields later) -> is_root_field (snd kv) = false) ->
       prepare later no_overrides = prepare later kw.
Proof.
  intros Hno Hs. unfold serialize in Hs.
  apply bind_Ok in Hs. destruct Hs as ([data s1] & Hn & Hs).
  assert (s1 = self') as ->.
  { destruct (negb (String.eqb format "python")).
    - apply bind_Ok in Hs. destruct Hs as (x & _ & [= _ <-]). reflexivity.
    - injection Hs as _ <-. reflexivity. }
  destruct (@converted_keeps_opts w fuel (prepare self kw) self' v data Hn)
    as (Ho & _).
  rewrite prepare_without_root in Ho by assumption. simpl in Ho.
  split; [exact Ho|].
  intros later Hl Hnl.
  rewrite !prepare_without_root by assumption.
  rewrite Hl, Ho. simpl. rewrite apply_overrides_twice. reflexivity.
Qed.
End Overrides.

Lemma nested_override_of_root_field_is_lost_witness :
  get_fields person_world
    (prepare envelope (mkOverrides None None (Some (NInt 3)))) (Some 0)
    (NBool false)
  = get_fields person_world
      (prepare envelope (mkOverrides None None None)) (Some 0) (NBool false).
Proof.
  apply (@nested_override_of_root_field_is_lost person_world envelope
           [] [] "fields" (attrs root_serializer) [] [] None None (NInt 3)
           (Some 0) (NBool false)).
  - reflexivity.
  - intros kv [].
  - reflexivity.
Defined.

Lemma overrides_stay_on_the_instance_witness :
  exists r self',
    serialize person_world 3 (object_serializer (NBool false)) "python"
              (VRef 0) (mkOverrides (Some ["id"]) None None) = Ok (r, self')
    /\ fields (opts (attrs self')) = ["id"]
    /\ prepare self' no_overrides
       = prepare self' (mkOverrides (Some ["id"]) None None).
Proof.
  eexists _, _. split; [reflexivity|].
  destruct (@overrides_stay_on_the_instance person_world 3
              (object_serializer (NBool false)) _ "python" (VRef 0)
              (mkOverrides (Some ["id"]) None None) _
              (fun kv (H : In kv []) => match H with end) eq_refl)
    as (H1 & H2).
  split; [now rewrite H1|].
  apply H2; [reflexivity|]. intros kv [].
Defined.

(** ** Flat serialization *)

Section FlatSerialization.
Import SortedDict SortedDictFacts.
Variable w : world.

Lemma add_defaults_fresh (V : Type) (l d : list (string * V)) :
  NoDup (keys (d ++ l)) ->
  fold_left (fun ret kv => if contains (fst kv) ret then ret
                           else set (fst kv) (snd kv) ret) l d
  = d ++ l.
Proof.
  revert d. induction l as [|[k v] r IH]; intros d Hnd; simpl.
  - now rewrite app_nil_r.
  - assert (~ In k (keys d)) as Hk.
    { unfold keys in Hnd. rewrite map_app in Hnd. apply NoDup_remove_2 in Hnd.
      intros Hin. apply Hnd, in_or_app. now left. }
    assert (contains k d = false) as ->.
    { rewrite contains_mem. now apply mem_false. }
    assert (set k v d = d ++ [(k, v)]) as ->.
    { clear - Hk. induction d as [|[k' v'] d IH]; simpl; [reflexivity|].
      destruct (String.eqb_spec k k') as [->|Hne].
      - exfalso. apply Hk. now left.
      - f_equal. apply IH. intros Hin. apply Hk. now right. }
    rewrite IH; rewrite <- app_assoc; simpl; [reflexivity|assumption].
Qed.

Lemma determined_by_keys (V : Type) (g : string -> V) (l : list (string * V)) :
  (forall k v, In (k, v) l -> v = g k) ->
  l = map (fun k => (k, g k)) (keys l).
Proof.
  induction l as [|[k v] r IH]; intros H; simpl; [reflexivity|].
  rewrite (H k v) by now left. f_equal. apply IH.
  intros k' v' Hin. apply H. now right.
Qed.

(** A field set of leaves without labels, over names that are attributes of
    the object, converts name by name to the flat value of the attribute. *)
Lemma convert_leaves (rec : serializer -> value -> result (prim * serializer))
    (o : oid) (d : list (string * value)) (names : list string) :
  nth_error (heap w) o = Some d ->
  NoDup names ->
  (forall k, In k names -> In k (map fst d)) ->
  convert_fields w rec o (map (fun k => (k, Leaf None)) names)
  = Ok (map (fun k => (k, flat (attr_value d k))) names).
Proof.
  intros Hd Hnd Hin. unfold convert_fields, items.
  rewrite (for_each_set_ok
             (fun kv : string * field => convert_field_key (fst kv) (snd kv))
             (fun kv => field_to_native w rec (snd kv) o (fst kv)) []
             (pairs := map (fun k => (k, flat (attr_value d k))) names)).
  - f_equal. apply (of_pairs_NoDup
                      (map (fun k => (k, flat (attr_value d k))) names)).
    rewrite map_map. simpl. now rewrite map_id.
  - clear Hnd. induction names as [|k r IH]; simpl; constructor.
    + split; [reflexivity|]. simpl. unfold getattr, __dict__, attr_value.
      rewrite Hd. simpl.
      destruct (get k d) as [v|] eqn:E; [reflexivity|].
      apply get_None in E. exfalso. apply E, Hin. now left.
    + apply IH. intros k' Hk'. apply Hin. now right.
Qed.

(** X11. A plain [ObjectSerializer] whose [nested] option is false or zero
    converts an object that is not on its stack to the mapping of its public
    attribute names, in sorted order, each to the flat value of the
    attribute; nothing is nested, and the object is pushed on the stack. *)
Theorem flat_object_serialization (fuel : nat) (self : serializer) (o : oid)
    (d : list (string * value)) (st : list oid) :
  plain self ->
  truthy (nested (opts (attrs self))) = false ->
  stack (attrs self) = Some st ->
  in_stack w o st = false ->
  nth_error (heap w) o = Some d ->
  NoDup (map fst d) ->
  to_native w (S fuel) self (VRef o)
  = Ok (PMap (map (fun a => (a, flat (attr_value d a))) (public_attrs d)),
        with_attrs (set_stack (st ++ [o]) (attrs self)) self).
Proof.
  intros Hp Hn Hst Hin Hd Hnd.
  pose proof Hp as (Hk & _ & Hf & Hfl & Hex & Hroot & _).
  cbn [to_native to_native_body]. unfold convert_object, determine_recursion.
  rewrite Hst, Hin. cbn [andb bind].
  set (self1 := with_attrs (set_stack (st ++ [o]) (attrs self)) self).
  assert (get_fields w self1 (Some o) (nested (opts (attrs self1)))
          = Ok (map (fun k => (k, Leaf None)) (public_attrs d))) as ->.
  { unfold get_fields, merged_fields.
    change (s_fields self1) with (s_fields self).
    change (opts (attrs self1)) with (opts (attrs self)).
    rewrite Hf, Hfl, Hex. cbn [for_each items bind].
    rewrite (@object_default_fields_eq w self1 o d
               (nested (opts (attrs self))) (st ++ [o]) Hk Hd eq_refl).
    rewrite Hn. cbn [bind initialized use_specified remove_excluded].
    do 2 f_equal.
    assert (fold_left (fun ret kv => set (fst kv) (snd kv) ret)
              (map (fun a => (a, Leaf None)) (public_attrs d)) []
            = map (fun a => (a, Leaf None)) (public_attrs d)) as ->.
    { apply (of_pairs_NoDup (map (fun a => (a, Leaf None)) (public_attrs d))).
      rewrite map_map. simpl. rewrite map_id.
      now apply public_attrs_NoDup. }
    apply (add_defaults_fresh
             (map (fun a => (a, Leaf None)) (public_attrs d)) []).
    simpl. unfold keys. rewrite map_map. simpl. rewrite map_id.
    now apply public_attrs_NoDup. }
  cbn [bind]. rewrite (@convert_leaves (to_native w fuel) o d (public_attrs d) Hd).
  - reflexivity.
  - now apply public_attrs_NoDup.
  - intros k Hk'. now apply public_attrs_In in Hk'.
Qed.
End FlatSerialization.

Lemma flat_object_serialization_witness :
  exists self',
    to_native person_world 1
              (prepare (object_serializer (NBool false)) no_overrides) (VRef 0)
    = Ok (PMap [("email", PScalar SNone); ("id", PScalar (SInt 1));
                ("name", PScalar (SStr "a")); ("secret", PScalar (SStr "s"));
                ("tags", PFlat (VList []))], self').
Proof.
  eexists.
  assert (plain (prepare (object_serializer (NBool false)) no_overrides))
    as Hp by (unfold plain; simpl; tauto).
  assert (NoDup (map fst [("name", VScalar (SStr "a"));
                          ("id", VScalar (SInt 1));
                          ("secret", VScalar (SStr "s")); ("tags", VList []);
                          ("email", VScalar SNone);
                          ("_cache", VScalar SNone)])) as Hnd.
  { simpl. repeat constructor; simpl; intuition discriminate. }
  exact (@flat_object_serialization person_world 0
           (prepare (object_serializer (NBool false)) no_overrides) 0 _ []
           Hp eq_refl eq_refl eq_refl eq_refl Hnd).
Defined.

(** ** Model serializers *)

Section MoreModelSerializers.
Import SortedDict SortedDictFacts.
Variable w : world.

Lemma follow_pk_not_a_relation (fuel : nat) (pk pk' : model_field) :
  follow_pk w fuel pk = Ok pk' -> mf_rel pk' = None.
Proof.
  revert pk. induction fuel as [|fuel IH]; intros pk; simpl.
  - destruct (mf_rel pk) eqn:E; [discriminate|]. now intros [= <-].
  - destruct (mf_rel pk) eqn:E; [|now intros [= <-]].
    destruct (nth_error (models w) n); [apply IH|discriminate].
Qed.

(** The default field a [ModelSerializer] picks for a model field. *)
Lemma model_default_fields_eq (self : serializer) (o : oid)
    (m : model_options) (pk : model_field) (n : nested_opt) (st : list oid) :
  s_kind (attrs self) = ModelSerializer ->
  stack (attrs self) = Some st ->
  model_meta w o = Ok m ->
  follow_pk w (List.length (models w)) (mo_pk m) = Ok pk ->
  default_fields w self (Some o) n
  = Ok (fold_left (fun ret kv => set (fst kv) (snd kv) ret)
          (map (fun mf =>
                  (mf_name mf,
                   initialized st (nested (opts (attrs self)))
                     (if match mf_rel mf with Some _ => true | None => false end
                         && truthy n
                      then get_nested_field
                      else if match mf_rel mf with
                              | Some _ => true
                              | None => false
                              end
                           then get_related_field else get_field)))
               (serialized_model_fields pk m))
          []).
Proof.
  intros Hk Hst Hm Hpk. unfold default_fields. rewrite Hk, Hm. cbn [bind].
  rewrite Hpk. cbn [bind].
  apply (for_each_set_ok mf_name
           (fun mf =>
              initialize self
                (if match mf_rel mf with Some _ => true | None => false end
                    && truthy n
                 then get_nested_field
                 else if match mf_rel mf with
                         | Some _ => true
                         | None => false
                         end
                      then get_related_field else get_field))).
  apply Forall2_total. intros mf _. now apply initialize_ok.
Qed.

(** X12. The default fields of a [ModelSerializer] for a model instance:
    the names are those of the primary key, reached through the chain of
    relations and itself no relation, then of the fields and many-to-many
    fields whose [serialize] flag is set, each name once; every field is a
    leaf or a nested [ModelSerializer], and all are leaves when [nested] is
    false or zero. *)
Theorem model_default_fields (self : serializer) (o : oid)
    (m : model_options) (pk : model_field) (n : nested_opt) (st : list oid) :
  s_kind (attrs self) = ModelSerializer ->
  stack (attrs self) = Some st ->
  model_meta w o = Ok m ->
  follow_pk w (List.length (models w)) (mo_pk m) = Ok pk ->
  exists fs,
    default_fields w self (Some o) n = Ok fs
    /\ keys fs = uniq (map mf_name (serialized_model_fields pk m))
    /\ mf_rel pk = None
    /\ (forall k f, get k fs = Some f ->
                    f = Leaf None
                    \/ (truthy n = true
                        /\ f = initialized st (nested (opts (attrs self)))
                                 get_nested_field)).
Proof.
  intros Hk Hst Hm Hpk. eexists. split.
  - exact (@model_default_fields_eq self o m pk n st Hk Hst Hm Hpk).
  - split; [|split].
    + now rewrite keys_set_seq_nil, map_map.
    + eapply follow_pk_not_a_relation. exact Hpk.
    + intros k f H. apply get_set_seq in H. destruct H as [H|H];
        [|discriminate].
      apply in_map_iff in H. destruct H as (mf & [= <- <-] & _).
      destruct (mf_rel mf); simpl.
      * destruct (truthy n); [right; now split|now left].
      * now left.
Qed.

(** X13. A nested field that [ModelSerializer.default_fields] creates has
    neither object nor field name recorded when it converts an attribute:
    whenever that attribute is a composite object found on the stack the
    field took from its parent, the conversion raises [AttributeError]. *)
Theorem nested_model_field_raises_on_stack_object (fuel : nat)
    (parent : serializer) (st : list oid) (o o' : oid) (name : string) :
  stack (attrs parent) = Some st ->
  getattr w o name = Ok (VRef o') ->
  in_stack w o' st = true ->
  exists f,
    initialize parent get_nested_field = Ok f
    /\ field_to_native w (to_native w (S fuel)) f o name
       = Raise (AttributeError "obj").
Proof.
  intros Hst Hg Hin. eexists. split.
  - unfold get_nested_field, as_field, initialize. cbn [attrs new_serializer].
    rewrite Hst. reflexivity.
  - cbn [field_to_native initialized_attrs s_kind set_opts set_stack
           new_serializer attrs base_fields s_fields].
    unfold ModelSerializer_field_to_native. cbn. rewrite Hg. cbn.
    unfold convert_object, determine_recursion. cbn. rewrite Hin. reflexivity.
Qed.
End MoreModelSerializers.

Lemma model_default_fields_witness :
  let self := prepare (model_serializer (NBool true)) no_overrides in
  exists fs,
    default_fields xy_model_world self (Some 0) (NBool true) = Ok fs
    /\ SortedDict.keys fs = ["id"; "y"].
Proof.
  intros self.
  destruct (@model_default_fields xy_model_world self 0 _ _ (NBool true) []
              eq_refl eq_refl eq_refl eq_refl) as (fs & H1 & H2 & _).
  exists fs. split; [exact H1|]. rewrite H2. reflexivity.
Defined.

Lemma nested_model_field_raises_on_stack_object_witness :
  let parent := with_attrs (set_stack [0; 1]
                              (attrs (model_serializer (NBool true))))
                           (model_serializer (NBool true)) in
  exists f,
    initialize parent (get_nested_field) = Ok f
    /\ field_to_native xy_model_world (to_native xy_model_world 1) f 1 "x"
       = Raise (AttributeError "obj").
Proof.
  intros parent.
  exact (@nested_model_field_raises_on_stack_object xy_model_world 0 parent
           [0; 1] 1 0 "x" eq_refl eq_refl eq_refl).
Defined.

Section FlatModels.
Import SortedDict SortedDictFacts.
Variable w : world.

Lemma In_uniq (l : list string) (x : string) : In x (uniq l) <-> In x l.
Proof.
  induction l as [|y r IH]; simpl; [tauto|].
  rewrite filter_In, IH.
  destruct (String.eqb_spec x y) as [->|Hne]; simpl; [tauto|].
  split; [tauto|]. intros [->|H]; [congruence|tauto].
Qed.

Lemma NoDup_uniq (l : list string) : NoDup (uniq l).
Proof.
  induction l as [|y r IH]; simpl; constructor.
  - rewrite filter_In. intros [_ H]. now rewrite String.eqb_refl in H.
  - now apply NoDup_filter.
Qed.

(** X14. A [ModelSerializer] without declared fields, allowlist or
    exclusions whose [nested] option is false or zero converts a model
    instance that is not on its stack to a flat mapping: the primary key
    first, then the other serialized model fields, each name once with the
    flat value of the attribute. No nested serializer is created, so that
    references among the instances play no part. *)
Theorem flat_model_serialization (fuel : nat) (self : serializer) (o : oid)
    (d : list (string * value)) (m : model_options) (pk : model_field)
    (st : list oid) :
  s_kind (attrs self) = ModelSerializer ->
  s_fields self = [] ->
  fields (opts (attrs self)) = [] ->
  exclude (opts (attrs self)) = [] ->
  truthy (nested (opts (attrs self))) = false ->
  stack (attrs self) = Some st ->
  in_stack w o st = false ->
  nth_error (heap w) o = Some d ->
  model_meta w o = Ok m ->
  follow_pk w (List.length (models w)) (mo_pk m) = Ok pk ->
  (forall mf, In mf (serialized_model_fields pk m) ->
              In (mf_name mf) (map fst d)) ->
  to_native w (S fuel) self (VRef o)
  = Ok (PMap (map (fun k => (k, flat (attr_value d k)))
                  (uniq (map mf_name (serialized_model_fields pk m)))),
        with_attrs (set_stack (st ++ [o]) (attrs self)) self).
Proof.
  intros Hk Hf Hfl Hex Hn Hst Hin Hd Hm Hpk Hattrs.
  cbn [to_native to_native_body]. unfold convert_object, determine_recursion.
  rewrite Hst, Hin. cbn [andb bind].
  set (self1 := with_attrs (set_stack (st ++ [o]) (attrs self)) self).
  set (names := uniq (map mf_name (serialized_model_fields pk m))).
  assert (get_fields w self1 (Some o) (nested (opts (attrs self1)))
          = Ok (map (fun k => (k, Leaf None)) names)) as ->.
  { unfold get_fields, merged_fields.
    change (s_fields self1) with (s_fields self).
    change (opts (attrs self1)) with (opts (attrs self)).
    rewrite Hf, Hfl, Hex. cbn [for_each items bind].
    rewrite (@model_default_fields_eq w self1 o m pk
               (nested (opts (attrs self))) (st ++ [o]) Hk eq_refl Hm Hpk).
    cbn [bind use_specified remove_excluded]. do 2 f_equal.
    match goal with
    | |- fold_left _ (items ?l) [] = _ =>
        assert (l = map (fun k => (k, Leaf None)) names) as ->
    end.
    { match goal with |- ?l = _ => rewrite (determined_by_keys
                                             (fun _ => Leaf None) l) end.
      - now rewrite keys_set_seq_nil, map_map.
      - intros k v H. apply In_set_seq in H. destruct H as [H|[]].
        apply in_map_iff in H. destruct H as (mf & [= <- <-] & _).
        rewrite Hn, andb_false_r. now destruct (mf_rel mf). }
    apply (add_defaults_fresh (map (fun k => (k, Leaf None)) names) []).
    cbn [app]. unfold keys.
    replace (map fst (map (fun k : string => (k, Leaf None)) names))
      with names; [apply NoDup_uniq|].
    rewrite map_map. cbn [fst]. now rewrite map_id. }
  cbn [bind]. rewrite (@convert_leaves w (to_native w fuel) o d names Hd).
  - reflexivity.
  - apply NoDup_uniq.
  - intros k Hk'. unfold names in Hk'. apply (proj1 (In_uniq _ _)) in Hk'.
    apply in_map_iff in Hk'.
    destruct Hk' as (mf & <- & Hmf). now apply Hattrs.
Qed.
End FlatModels.

Lemma flat_model_serialization_witness :
  exists self',
    to_native xy_model_world 1
              (prepare (model_serializer (NBool false)) no_overrides) (VRef 0)
    = Ok (PMap [("id", PScalar (SInt 1)); ("y", PFlat (VRef 1))], self').
Proof.
  eexists.
  refine (@flat_model_serialization xy_model_world 0
            (prepare (model_serializer (NBool false)) no_overrides) 0 _ _ _ []
            eq_refl eq_refl eq_refl eq_refl eq_refl eq_refl eq_refl eq_refl
            eq_refl eq_refl _).
  intros mf H. simpl in H.
  destruct H as [<-|[<-|[]]]; simpl; tauto.
Defined.

(** ** The way back *)

Lemma bind_fuel (A B : Type) (m : result A) (k : A -> result B) :
  m <> OutOfFuel -> (forall a, k a <> OutOfFuel) -> bind m k <> OutOfFuel.
Proof. destruct m; simpl; auto. discriminate. Qed.

Lemma for_each_fuel (A S : Type) (body : S -> A -> result S) (l : list A)
    (s : S) :
  (forall s' a, In a l -> body s' a <> OutOfFuel) ->
  for_each body l s <> OutOfFuel.
Proof.
  revert s. induction l as [|a r IH]; intros s H; simpl; [discriminate|].
  apply bind_fuel.
  - apply H. now left.
  - intros s'. apply IH. intros s'' x Hx. apply H. now right.
Qed.

Lemma returned_fuel (A : Type) (r : A + error) : returned r <> OutOfFuel.
Proof. destruct r; discriminate. Qed.

Lemma revert_class_fuel (self : attributes) (parents : list attributes) :
  revert_class self parents <> OutOfFuel.
Proof.
  revert self. induction parents as [|p ps IH]; intros self; simpl;
    destruct (is_root (opts self)); try discriminate. apply IH.
Qed.

Lemma revert_class_not_root (self : attributes) (parents : list attributes) :
  is_root (opts self) = false -> revert_class self parents = Ok None.
Proof. intros H. destruct parents; simpl; now rewrite H. Qed.

Section Reverting.
Import SortedDict SortedDictFacts.
Variable w : world.
Variable leaf :
  option string -> list (string * native) -> string ->
  list (string * revived) -> list (string * revived) + error.
Variable update :
  list (string * revived) -> list revived -> option error ->
  list (string * revived) + error.
Variable parse : string -> source -> native + error.

Lemma declared_fields_initialize (self : serializer) (st : list oid)
    (l : list (string * field)) (d : sorted_dict field) :
  stack (attrs self) = Some st ->
  exists decl,
    for_each (fun ret kv =>
                field <- initialize self (snd kv) ;;
                Ok (set (fst kv) field ret)) l d = Ok decl.
Proof.
  intros Hst. revert d. induction l as [|[k f] r IH]; intros d; simpl.
  - now exists d.
  - rewrite (@initialize_ok self f st Hst). simpl. apply IH.
Qed.

Lemma get_fields_without_object_fuel (self : serializer) (n : nested_opt) :
  get_fields w self None n <> OutOfFuel.
Proof.
  unfold get_fields, merged_fields. apply bind_fuel.
  - apply bind_fuel.
    + apply for_each_fuel. intros s [k f] _. simpl.
      unfold initialize. destruct f; simpl; [discriminate|].
      destruct (stack (attrs self)); discriminate.
    + intros ret. apply bind_fuel; [|discriminate].
      unfold default_fields. destruct (s_kind (attrs self)); discriminate.
  - intros ret. apply bind_fuel; [|discriminate].
    unfold use_specified.
    destruct (fields (opts (attrs self))) as [|name allow]; [discriminate|].
    apply for_each_fuel. intros new key _. unfold getitem.
    destruct (get key ret); discriminate.
Qed.

Lemma get_fields_without_object_kind (self : serializer) (n : nested_opt)
    (fs : sorted_dict field) :
  get_fields w self None n = Ok fs -> s_kind (attrs self) = BaseSerializer.
Proof.
  unfold get_fields, merged_fields. intros H.
  apply bind_Ok in H. destruct H as (merged & H & _).
  apply bind_Ok in H. destruct H as (decl & _ & H).
  apply bind_Ok in H. destruct H as (defaults & H & _).
  unfold default_fields in H.
  destruct (s_kind (attrs self)); [reflexivity|discriminate|discriminate].
Qed.

Lemma get_fields_keys_NoDup (self : serializer) (obj : option oid)
    (n : nested_opt) (ret : sorted_dict field) :
  get_fields w self obj n = Ok ret -> NoDup (keys ret).
Proof.
  unfold get_fields. intros H.
  apply bind_Ok in H. destruct H as (merged & Hm & H).
  apply bind_Ok in H. destruct H as (sel & Hsel & [= <-]).
  rewrite keys_remove_excluded. apply NoDup_filter.
  unfold use_specified in Hsel.
  destruct (fields (opts (attrs self))) as [|a r].
  - injection Hsel as <-. eapply merged_fields_NoDup. exact Hm.
  - apply for_each_set_inv
      with (key := fun a : string => a)
           (val := fun a => getitem a merged) in Hsel.
    destruct Hsel as (pairs & _ & ->). apply NoDup_of_pairs. constructor.
Qed.

Lemma primitives_stack (self : serializer) (st : list oid) (format : string)
    (src : source) :
  primitives parse (with_attrs (set_stack st (attrs self)) self) format src
  = primitives parse self format src.
Proof. reflexivity. Qed.

(** X15. An [ObjectSerializer] that is not a root cannot revert a mapping:
    whatever fields it declares and whatever the leaf fields and the parser
    do, [deserialize] raises the exception of its [default_fields] as soon
    as the primitives are a dictionary. *)
Theorem object_serializer_cannot_revert (fuel : nat) (self : serializer)
    (format : string) (src : source) (kvs : list (string * native)) :
  s_kind (attrs self) = ObjectSerializer ->
  is_root (opts (attrs self)) = false ->
  primitives parse self format src = Ok (NDict kvs) ->
  deserialize w leaf update parse (S fuel) self format src
  = Raise (PyException "ObjectSerializer does not support deserialization").
Proof.
  intros Hk Hroot Hp. unfold deserialize.
  rewrite primitives_stack, Hp. cbn [bind from_native from_native_body].
  rewrite revert_class_not_root by exact Hroot. cbn [bind].
  unfold revert_fields, get_fields, merged_fields.
  destruct (@declared_fields_initialize
              (with_attrs (set_stack [] (attrs self)) self) []
              (items (s_fields (with_attrs (set_stack [] (attrs self)) self)))
              [] eq_refl) as (decl & ->).
  cbn [bind]. unfold default_fields.
  change (s_kind (attrs (with_attrs (set_stack [] (attrs self)) self)))
    with (s_kind (attrs self)).
  now rewrite Hk.
Qed.

(** X16. A serializer constructed with [is_root] set and used on its own
    cannot revert a mapping: it has no parent to ask for the class, and
    [deserialize] raises [AttributeError], whatever its class and its
    fields. *)
Theorem top_level_root_cannot_revert (fuel : nat) (self : serializer)
    (format : string) (src : source) (kvs : list (string * native)) :
  is_root (opts (attrs self)) = true ->
  primitives parse self format src = Ok (NDict kvs) ->
  deserialize w leaf update parse (S fuel) self format src
  = Raise (AttributeError "revert_class").
Proof.
  intros Hroot Hp. unfold deserialize.
  rewrite primitives_stack, Hp. cbn [bind from_native from_native_body].
  cbn [revert_class].
  change (is_root (opts (attrs (with_attrs (set_stack [] (attrs self)) self))))
    with (is_root (opts (attrs self))).
  now rewrite Hroot.
Qed.

(** X17. With the parsers [Meta] gets by default, [deserialize] reads
    ['json'] only: for every other format but ['python'] - so for ['xml'],
    ['yaml'], ['csv'] and ['html'], which [serialize] writes - it raises
    [KeyError] before anything is parsed or reverted. *)
Theorem deserialize_formats (fuel : nat) (self : serializer)
    (format : string) (src : source) :
  parser_classes (opts (attrs self)) = default_parser_classes ->
  ~ In format ["python"; "json"] ->
  deserialize w leaf update parse fuel self format src
  = Raise (KeyError format).
Proof.
  intros Hp Hnot. unfold deserialize. rewrite primitives_stack.
  unfold primitives. rewrite Hp.
  assert (forall s, In s ["python"; "json"] -> String.eqb format s = false)
    as Hne.
  { intros s Hs. apply String.eqb_neq. intros ->. contradiction. }
  rewrite (Hne "python") by (simpl; auto).
  unfold getitem, default_parser_classes. simpl.
  rewrite (Hne "json") by (simpl; auto). reflexivity.
Qed.

Lemma revert_items_fuel
    (rec : serializer -> list attributes -> native -> result revived)
    (self : serializer) (parents : list attributes) (xs : list native) :
  (forall x, In x xs -> rec self parents x <> OutOfFuel) ->
  revert_items rec self parents xs <> OutOfFuel.
Proof.
  induction xs as [|x r IH]; intros H; simpl; [discriminate|].
  destruct (rec self parents x) eqn:E; [|discriminate|].
  - apply bind_fuel; [|intros [ys e]; discriminate].
    apply IH. intros y Hy. apply H. now right.
  - exfalso. apply (H x); [now left|assumption].
Qed.

Lemma data_get_height (kvs : list (string * native)) (k : string) :
  nheight (data_get kvs k) <= list_max (map (fun kv => nheight (snd kv)) kvs).
Proof.
  unfold data_get. destruct (get k kvs) as [d|] eqn:E; [|simpl; lia].
  apply get_In in E.
  apply (list_max_ge (map (fun kv => nheight (snd kv)) kvs) (nheight d)).
  apply in_map_iff. now exists (k, d).
Qed.

Lemma dict_update_fuel (into : list (string * revived)) (r : revived) :
  dict_update update into r <> OutOfFuel.
Proof.
  destruct r as [s|ys e|kvs|c kw m]; simpl; try discriminate.
  - destruct s as [| | |t]; try discriminate.
    destruct (String.eqb t ""); discriminate.
  - apply returned_fuel.
Qed.

Lemma create_object_fuel (self : serializer) (cls : option nat)
    (attributes : list (string * revived)) :
  create_object w self cls attributes <> OutOfFuel.
Proof.
  unfold create_object, ModelSerializer_create_object,
    BaseSerializer_create_object.
  destruct (s_kind (attrs self)); try discriminate.
  destruct cls as [c|]; [|discriminate].
  destruct (nth_error (models w) c); [|discriminate].
  destruct (fold_left take_many_to_many _ _). discriminate.
Qed.

(** X18. Reverting always comes to an end: the recursion of [from_native]
    follows the data, from a sequence to its elements and from a dictionary
    to the values under the names of the fields, so that with more fuel
    than the data is deep every serializer returns or raises, whatever its
    fields do. No stack is needed in this direction. *)
Theorem from_native_terminates (fuel : nat) (self : serializer)
    (parents : list attributes) (data : native) :
  nheight data < fuel ->
  from_native w leaf update fuel self parents data <> OutOfFuel.
Proof.
  revert self parents data.
  induction fuel as [|fuel IH]; intros self parents data Hh; [lia|].
  destruct data as [s|kvs|xs]; cbn [from_native from_native_body].
  - discriminate.
  - apply bind_fuel; [apply revert_class_fuel|]. intros cls.
    apply bind_fuel; [|intros a; apply create_object_fuel].
    unfold revert_fields. apply bind_fuel;
      [apply get_fields_without_object_fuel|].
    intros fs. apply for_each_fuel. intros into [k f] _.
    unfold field_from_native. cbn [fst snd].
    destruct f as [l|a b c]; [apply returned_fuel|].
    apply bind_fuel.
    + apply IH. pose proof (data_get_height kvs k). simpl in Hh. lia.
    + intros r. destruct (is_root (opts a));
        [apply dict_update_fuel|discriminate].
  - apply bind_fuel; [|intros [ys e]; discriminate].
    apply revert_items_fuel. intros x Hx. apply IH.
    pose proof (list_max_ge (map nheight xs) (nheight x)
                  (in_map nheight _ _ Hx)).
    simpl in Hh. lia.
Qed.

Lemma set_fresh (V : Type) (l d : list (string * V)) :
  NoDup (keys (d ++ l)) ->
  fold_left (fun ret kv => set (fst kv) (snd kv) ret) l d = d ++ l.
Proof.
  revert d. induction l as [|[k v] r IH]; intros d Hnd; simpl.
  - now rewrite app_nil_r.
  - assert (~ In k (keys d)) as Hk.
    { unfold keys in Hnd. rewrite map_app in Hnd. apply NoDup_remove_2 in Hnd.
      intros Hin. apply Hnd, in_or_app. now left. }
    assert (set k v d = d ++ [(k, v)]) as ->.
    { clear -Hk. induction d as [|[k' v'] d IH]; simpl; [reflexivity|].
      destruct (String.eqb_spec k k') as [->|Hne].
      - elim Hk. now left.
      - f_equal. apply IH. intros H. apply Hk. now right. }
    rewrite IH; rewrite <- app_assoc; [reflexivity|exact Hnd].
Qed.

Lemma missing_keys_loop
    (rec : serializer -> list attributes -> native -> result revived)
    (parents : list attributes) (kvs : list (string * native))
    (l : list (string * field)) (into : list (string * revived)) :
  (forall s ps, rec s ps (NScalar SNone) = Ok (RScalar SNone)) ->
  (forall k f, In (k, f) l -> exists a b c, f = Ser a b c) ->
  (forall k, In k (keys l) -> get k kvs = None) ->
  for_each (fun reverted_data kv =>
              field_from_native leaf update rec parents (snd kv) kvs (fst kv)
                                reverted_data) l into
  = if existsb is_root_field (map snd l) then Raise TypeError
    else Ok (fold_left (fun ret kv => set (fst kv) (snd kv) ret)
                       (map (fun kv => (fst kv, RScalar SNone)) l) into).
Proof.
  intros Hrec. revert into.
  induction l as [|[k f] r IH]; intros into Hser Hmiss; [reflexivity|].
  destruct (Hser k f (or_introl eq_refl)) as (a & b & c & ->).
  cbn [for_each fst snd field_from_native map existsb is_root_field].
  unfold data_get. rewrite (Hmiss k) by now left.
  rewrite Hrec. cbn [bind].
  destruct (is_root (opts a)); [reflexivity|].
  cbn [bind orb fold_left fst snd]. apply IH.
  - intros k' f' H. apply (Hser k' f'). now right.
  - intros k' H. apply Hmiss. now right.
Qed.

(** X19. When every field of a serializer is a serializer and the data
    holds none of their names, reverting the data binds every name to
    [None] if no field is a root; if one is, [TypeError] is raised, since
    a root field merges what it reverted into the attributes and [None]
    cannot be merged. *)
Theorem missing_keys_of_serializer_fields (fuel : nat) (self : serializer)
    (parents : list attributes) (kvs : list (string * native))
    (fs : sorted_dict field) :
  is_root (opts (attrs self)) = false ->
  get_fields w self None (nested (opts (attrs self))) = Ok fs ->
  (forall k f, In (k, f) fs -> exists a b c, f = Ser a b c) ->
  (forall k, In k (keys fs) -> get k kvs = None) ->
  from_native w leaf update (S (S fuel)) self parents (NDict kvs)
  = if existsb is_root_field (map snd fs) then Raise TypeError
    else Ok (RAttrs (map (fun k => (k, RScalar SNone)) (keys fs))).
Proof.
  intros Hroot Hget Hser Hmiss.
  pose proof (get_fields_without_object_kind _ _ Hget) as Hk.
  pose proof (get_fields_keys_NoDup _ _ _ Hget) as Hnd.
  change (from_native w leaf update (S (S fuel)) self parents (NDict kvs))
    with (from_native_body w leaf update (from_native w leaf update (S fuel))
                           self parents (NDict kvs)).
  cbn [from_native_body].
  rewrite revert_class_not_root by exact Hroot. cbn [bind].
  unfold revert_fields. rewrite Hget. cbn [bind]. unfold items.
  rewrite (@missing_keys_loop (from_native w leaf update (S fuel))
             (attrs self :: parents) kvs fs [] (fun _ _ => eq_refl) Hser Hmiss).
  destruct (existsb is_root_field (map snd fs)); [reflexivity|].
  cbn [bind]. unfold create_object, BaseSerializer_create_object.
  rewrite Hk. do 2 f_equal.
  rewrite set_fresh.
  - unfold keys. now rewrite map_map.
  - cbn [app]. unfold keys in *. rewrite map_map. exact Hnd.
Qed.

Lemma take_many_to_many_split (attributes : list (string * revived))
    (l : list model_field) (done : list string)
    (a b : list (string * revived)) :
  (forall k, get k a = if mem k done then None else get k attributes) ->
  (forall k, get k b = if mem k done then get k attributes else None) ->
  forall k,
    get k (fst (fold_left take_many_to_many l (a, b)))
    = (if mem k (done ++ map mf_name l) then None else get k attributes)
    /\ get k (snd (fold_left take_many_to_many l (a, b)))
       = (if mem k (done ++ map mf_name l) then get k attributes else None).
Proof.
  revert done a b. induction l as [|f r IH]; intros done a b Ha Hb k.
  - simpl. rewrite app_nil_r. auto.
  - cbn [fold_left map].
    replace (done ++ mf_name f :: map mf_name r)
      with ((done ++ [mf_name f]) ++ map mf_name r)
      by (rewrite <- app_assoc; reflexivity).
    assert (forall x, mem x (done ++ [mf_name f])
                      = mem x done || String.eqb x (mf_name f)) as Hmem.
    { intros x. unfold mem. rewrite existsb_app. simpl.
      now rewrite orb_false_r. }
    destruct (take_many_to_many (a, b) f) as [a' b'] eqn:Estep.
    unfold take_many_to_many in Estep.
    assert (get (mf_name f) a
            = if mem (mf_name f) done then None
              else get (mf_name f) attributes) as Hf by apply Ha.
    apply IH.
    + intros x. rewrite Hmem.
      destruct (get (mf_name f) a) as [v|] eqn:E;
        injection Estep as <- <-.
      * rewrite get_pop, Ha.
        destruct (String.eqb x (mf_name f)); [|now rewrite orb_false_r].
        now rewrite orb_true_r.
      * rewrite Ha.
        destruct (String.eqb_spec x (mf_name f)) as [->|Hne];
          [|now rewrite orb_false_r].
        rewrite orb_true_r.
        destruct (mem (mf_name f) done); congruence.
    + intros x. rewrite Hmem.
      destruct (get (mf_name f) a) as [v|] eqn:E;
        injection Estep as <- <-.
      * rewrite get_set, Hb.
        destruct (String.eqb_spec x (mf_name f)) as [->|Hne].
        -- rewrite orb_true_r.
           destruct (mem (mf_name f) done); congruence.
        -- now rewrite orb_false_r.
      * rewrite Hb.
        destruct (String.eqb_spec x (mf_name f)) as [->|Hne];
          [|now rewrite orb_false_r].
        rewrite orb_true_r.
        destruct (mem (mf_name f) done); congruence.
Qed.

(** X20. [ModelSerializer.create_object] splits the attributes in two by
    the names of the many-to-many fields of the model class: an attribute
    under such a name goes to [m2m_data] and not to the constructor of the
    instance, every other attribute goes to the constructor and not to
    [m2m_data], and no value is changed or lost. *)
Theorem create_object_splits_many_to_many (c : nat) (m : model_options)
    (attributes : list (string * revived)) :
  nth_error (models w) c = Some m ->
  exists kwargs m2m_data,
    ModelSerializer_create_object w (Some c) attributes
    = Ok (RObject c kwargs m2m_data)
    /\ forall k,
         get k kwargs
         = (if mem k (map mf_name (mo_many_to_many m)) then None
            else get k attributes)
         /\ get k m2m_data
            = (if mem k (map mf_name (mo_many_to_many m))
               then get k attributes else None).
Proof.
  intros Hm. unfold ModelSerializer_create_object. rewrite Hm.
  pose proof (@take_many_to_many_split attributes (mo_many_to_many m) []
                attributes [] (fun _ => eq_refl) (fun _ => eq_refl)) as H.
  destruct (fold_left take_many_to_many (mo_many_to_many m) (attributes, []))
    as [kwargs m2m_data].
  exists kwargs, m2m_data. split; [reflexivity|]. exact H.
Qed.
End Reverting.

Lemma object_serializer_cannot_revert_witness :
  deserialize xy_world no_contribution no_pairs plain_parser 1
              (object_serializer (NBool true)) "python"
              (Tree (NDict [("name", NScalar (SStr "x"))]))
  = Raise (PyException "ObjectSerializer does not support deserialization").
Proof.
  apply (@object_serializer_cannot_revert xy_world no_contribution no_pairs
           plain_parser 0 (object_serializer (NBool true)) "python"
           (Tree (NDict [("name", NScalar (SStr "x"))]))
           [("name", NScalar (SStr "x"))]); reflexivity.
Defined.

Lemma top_level_root_cannot_revert_witness :
  deserialize xy_world no_contribution no_pairs plain_parser 1
              root_serializer "python" (Tree (NDict []))
  = Raise (AttributeError "revert_class").
Proof.
  apply (@top_level_root_cannot_revert xy_world no_contribution no_pairs
           plain_parser 0 root_serializer "python" (Tree (NDict [])) []);
    reflexivity.
Defined.

Lemma deserialize_formats_witness :
  deserialize xy_world no_contribution no_pairs plain_parser 1
              (object_serializer (NBool true)) "xml" (Text "<x/>")
  = Raise (KeyError "xml").
Proof.
  apply (@deserialize_formats xy_world no_contribution no_pairs plain_parser 1
           (object_serializer (NBool true)) "xml" (Text "<x/>") eq_refl).
  simpl. intuition discriminate.
Defined.

Lemma from_native_terminates_witness :
  from_native xy_world no_contribution no_pairs 4
              (prepare envelope no_overrides) []
              (NList [NDict [("fields", NDict [])]])
  <> OutOfFuel.
Proof.
  apply (@from_native_terminates xy_world no_contribution no_pairs 4
           (prepare envelope no_overrides) []
           (NList [NDict [("fields", NDict [])]])).
  simpl. lia.
Defined.

Lemma missing_keys_of_serializer_fields_witness :
  from_native xy_world no_contribution no_pairs 2
              (prepare holder no_overrides) [] (NDict [])
  = Ok (RAttrs [("c", RScalar SNone)]).
Proof.
  refine (@missing_keys_of_serializer_fields xy_world no_contribution no_pairs
            0 (prepare holder no_overrides) [] [] _ eq_refl eq_refl _ _).
  - intros k f [[= <- <-]|[]]. now eexists _, _, _.
  - reflexivity.
Defined.

Lemma create_object_splits_many_to_many_witness :
  exists kwargs m2m_data,
    ModelSerializer_create_object tagged_world (Some 0)
      [("title", RScalar (SStr "t")); ("tags", RGen [] None)]
    = Ok (RObject 0 kwargs m2m_data)
    /\ forall k,
         SortedDict.get k kwargs
         = (if mem k ["tags"] then None
            else SortedDict.get k [("title", RScalar (SStr "t"));
                                   ("tags", RGen [] None)])
         /\ SortedDict.get k m2m_data
            = (if mem k ["tags"]
               then SortedDict.get k [("title", RScalar (SStr "t"));
                                      ("tags", RGen [] None)]
               else None).
Proof.
  exact (@create_object_splits_many_to_many tagged_world 0 _
           [("title", RScalar (SStr "t")); ("tags", RGen [] None)] eq_refl).
Defined.

(** ** The keys of a converted object *)

Section ConvertedKeys.
Import SortedDict SortedDictFacts.
Variable w : world.

Lemma get_set_seq_other (V : Type) (l : list (string * V)) (d : t V)
    (k : string) :
  ~ In k (map fst l) ->
  get k (fold_left (fun d kv => set (fst kv) (snd kv) d) l d) = get k d.
Proof.
  revert d. induction l as [|[k1 v1] r IH]; intros d H; simpl; [reflexivity|].
  rewrite IH by (intros Hin; apply H; now right).
  rewrite get_set. destruct (String.eqb_spec k k1) as [->|]; [|reflexivity].
  elim H. now left.
Qed.

Lemma get_set_seq_last (V : Type) (l1 l2 : list (string * V)) (d : t V)
    (k : string) (v : V) :
  ~ In k (map fst l2) ->
  get k (fold_left (fun d kv => set (fst kv) (snd kv) d)
                   (l1 ++ (k, v) :: l2) d) = Some v.
Proof.
  intros H. rewrite fold_left_app. cbn [fold_left fst snd].
  rewrite get_set_seq_other by exact H.
  rewrite get_set. now rewrite String.eqb_refl.
Qed.

(** X21. The mapping an object is converted to is keyed by the labels of
    the fields, and by the names of the fields without one: it holds each
    such key once, in the order of the fields, so that fields with the
    same label share one entry, and the entry holds what the last of them
    gave. *)
Theorem converted_keys_are_labels (fuel : nat) (self self' : serializer)
    (o : oid) (st : list oid) (fs : sorted_dict field) (p : prim) :
  stack (attrs self) = Some st ->
  in_stack w o st = false ->
  get_fields w (with_attrs (set_stack (st ++ [o]) (attrs self)) self)
             (Some o) (nested (opts (attrs self))) = Ok fs ->
  to_native w (S fuel) self (VRef o) = Ok (p, self') ->
  exists ret,
    p = PMap ret
    /\ keys ret
       = uniq (map (fun kv => convert_field_key (fst kv) (snd kv)) fs)
    /\ forall fs1 name f fs2,
         fs = fs1 ++ (name, f) :: fs2 ->
         (forall kv, In kv fs2 ->
                     convert_field_key (fst kv) (snd kv)
                     <> convert_field_key name f) ->
         exists v,
           field_to_native w (to_native w fuel) f o name = Ok v
           /\ get (convert_field_key name f) ret = Some v.
Proof.
  intros Hst Hin Hget H.
  cbn [to_native to_native_body] in H.
  unfold convert_object, determine_recursion in H.
  rewrite Hst, Hin in H. cbn [andb bind] in H.
  change (opts (attrs (with_attrs (set_stack (st ++ [o]) (attrs self)) self)))
    with (opts (attrs self)) in H.
  rewrite Hget in H. cbn [bind] in H.
  apply bind_Ok in H. destruct H as (ret & Hret & [= <- <-]).
  exists ret. split; [reflexivity|].
  unfold convert_fields, items in Hret.
  apply for_each_set_inv
    with (key := fun kv : string * field => convert_field_key (fst kv) (snd kv))
         (val := fun kv : string * field =>
                   field_to_native w (to_native w fuel) (snd kv) o (fst kv))
    in Hret.
  destruct Hret as (pairs & HF & ->). split.
  - rewrite keys_set_seq_nil. f_equal. eapply Forall2_keys. exact HF.
  - intros fs1 name f fs2 -> Hlast.
    apply Forall2_app_inv_l in HF.
    destruct HF as (p1 & p2 & _ & HF2 & ->).
    inversion HF2 as [|x [k v] r2 ps2 [Hk Hv] HF3]; subst.
    cbn [fst snd] in Hk, Hv. exists v. split; [exact Hv|]. subst k.
    apply get_set_seq_last.
    erewrite Forall2_keys by exact HF3.
    intros Hin'. apply in_map_iff in Hin'.
    destruct Hin' as (kv & Hkv & Hkv'). exact (Hlast kv Hkv' Hkv).
Qed.
End ConvertedKeys.

Lemma converted_keys_are_labels_witness :
  exists self',
    to_native ab_world 1 (prepare relabelled no_overrides) (VRef 0)
    = Ok (PMap [("n", PScalar (SInt 2))], self')
    /\ exists ret,
         PMap [("n", PScalar (SInt 2))] = PMap ret
         /\ SortedDict.keys ret = ["n"].
Proof.
  eexists. split; [reflexivity|].
  destruct (@converted_keys_are_labels ab_world 0
              (prepare relabelled no_overrides) _ 0 [] _ _
              eq_refl eq_refl eq_refl eq_refl) as (ret & Hp & Hk & _).
  exists ret. split; [exact Hp|exact Hk].
Defined.
